(** * Binary content upload sample for the OpenAI Responses agent

    A shallow embedding of
    [python/samples/concepts/agents/openai_responses/responses_agent_binary_content_upload.py].

    The script creates a temporary text file, wraps it and a PDF in
    [BinaryContent] attachments, holds a four-turn streamed conversation with
    an agent and deletes the temporary file in a [finally] block.

    Modelling choices:
    - a Python [str] is a [string] whose characters are the code points
      U+0000..U+00FF; [bytes] is [list byte];
    - the file system is a finite map from paths to the contents of regular
      files;
    - the observable behaviour (console output and the traffic with the
      remote service) is recorded, in order, in a trace of events;
    - exceptions are values of [exn]; effects done before an exception is
      raised stay in the world. *)

From Stdlib Require Import NArith Lia Ascii String List.
From Stdlib.Strings Require Byte.
From stdpp Require Import base gmap strings list.

Local Open Scope string_scope.
Local Open Scope list_scope.

(* ===================================================================== *)
(** ** Strings and bytes *)
(* ===================================================================== *)

(** The line feed written by ["\n"]. *)
Definition LF : string := String "010"%char EmptyString.

(** [s * n] for a string [s]. *)
Fixpoint str_repeat (s : string) (n : nat) : string :=
  match n with
  | O => ""
  | S k => s +:+ str_repeat s k
  end.

(** [str(b)] for a Python bool. *)
Definition str_of_bool (b : bool) : string :=
  if b then "True" else "False".

Abbreviation byte := Corelib.Init.Byte.byte.

Definition byte_of_N (n : N) : byte := byte_of_ascii (ascii_of_N n).

(** [s.encode("utf-8")], on code points below U+0100: one byte below
    U+0080, two bytes from there on. *)
Definition utf8_encode_char (c : ascii) : list byte :=
  let n := N_of_ascii c in
  if (n <? 128)%N then [byte_of_N n]
  else [byte_of_N (192 + n / 64); byte_of_N (128 + n mod 64)].

Fixpoint utf8_encode (s : string) : list byte :=
  match s with
  | EmptyString => []
  | String c rest => utf8_encode_char c ++ utf8_encode rest
  end.

(* ===================================================================== *)
(** ** Base64 (RFC 4648), the encoding named by [data_format="base64"] *)
(* ===================================================================== *)

Module Base64.

Definition alphabet : string :=
  "ABCDEFGHIJKLMNOPQRSTUVWXYZabcdefghijklmnopqrstuvwxyz0123456789+/".

Definition pad : ascii := "="%char.

(** The character of a sextet. *)
Definition char_of (n : N) : ascii :=
  match String.get (N.to_nat n) alphabet with
  | Some c => c
  | None => pad
  end.

(** The sextet of a character of the alphabet. *)
Definition value_of (c : ascii) : option N :=
  let n := N_of_ascii c in
  if (65 <=? n)%N && (n <=? 90)%N then Some (n - 65)%N
  else if (97 <=? n)%N && (n <=? 122)%N then Some (n - 71)%N
  else if (48 <=? n)%N && (n <=? 57)%N then Some (n + 4)%N
  else if (n =? 43)%N then Some 62%N
  else if (n =? 47)%N then Some 63%N
  else None.

Fixpoint encode (bs : list byte) : string :=
  match bs with
  | [] => ""
  | [a] =>
      let a := Byte.to_N a in
      String (char_of (a / 4))
        (String (char_of (a mod 4 * 16))
           (String pad (String pad "")))
  | [a; b] =>
      let a := Byte.to_N a in
      let b := Byte.to_N b in
      String (char_of (a / 4))
        (String (char_of (a mod 4 * 16 + b / 16))
           (String (char_of (b mod 16 * 4)) (String pad "")))
  | a :: b :: c :: rest =>
      let a := Byte.to_N a in
      let b := Byte.to_N b in
      let c := Byte.to_N c in
      String (char_of (a / 4))
        (String (char_of (a mod 4 * 16 + b / 16))
           (String (char_of (b mod 16 * 4 + c / 64))
              (String (char_of (c mod 64)) (encode rest))))
  end.

Definition is_pad (c : ascii) : bool := Ascii.eqb c pad.

Fixpoint decode (s : string) : option (list byte) :=
  match s with
  | "" => Some []
  | String c1 (String c2 (String c3 (String c4 rest))) =>
      match value_of c1, value_of c2 with
      | Some v1, Some v2 =>
          let b1 := byte_of_N (v1 * 4 + v2 / 16) in
          if is_pad c4 then
            match rest with
            | "" =>
                if is_pad c3 then Some [b1]
                else
                  match value_of c3 with
                  | Some v3 => Some [b1; byte_of_N (v2 mod 16 * 16 + v3 / 4)]
                  | None => None
                  end
            | _ => None
            end
          else
            match value_of c3, value_of c4, decode rest with
            | Some v3, Some v4, Some tl =>
                Some (b1 :: byte_of_N (v2 mod 16 * 16 + v3 / 4)
                         :: byte_of_N (v3 mod 4 * 64 + v4) :: tl)
            | _, _, _ => None
            end
      | _, _ => None
      end
  | _ => None
  end.

End Base64.

(** A sextet survives the trip through the alphabet and is never the
    padding character. *)
Definition sextet_ok (n : N) : bool :=
  match Base64.value_of (Base64.char_of n) with
  | Some m => (m =? n)%N
  | None => false
  end && negb (Base64.is_pad (Base64.char_of n)).

(* ===================================================================== *)
(** ** Contents (semantic_kernel.contents) *)
(* ===================================================================== *)

(** Modelled from the spec: [semantic_kernel.contents.binary_content] is not
    part of the sources at hand.  An attachment is an in-memory byte buffer
    with a declared media type and an optional encoding tag. *)
Record BinaryContent := mkBinaryContent {
  data : list byte;
  mime_type : string;
  data_format : option string;
}.

(** Modelled from the spec: the constructor [BinaryContent(data=...,
    mime_type=..., data_format=...)] accepts the provided bytes directly,
    associates the media type and tags the encoding. *)
Definition BinaryContent_init (d : list byte) (mime : string)
    (fmt : option string) : BinaryContent :=
  {| data := d; mime_type := mime; data_format := fmt |}.

(** Modelled from the spec: [can_read] of an attachment, true once the
    content is fully buffered. *)
Definition can_read (b : BinaryContent) : bool := true.

(** Modelled from the spec: the textual form of the content under its
    encoding tag; an attachment tagged ["base64"] is rendered in Base64. *)
Definition data_string (b : BinaryContent) : option string :=
  match data_format b with
  | Some fmt => if String.eqb fmt "base64" then Some (Base64.encode (data b)) else None
  | None => None
  end.

(** Modelled from the spec: the decoded content, the bytes recovered from
    the textual form. *)
Definition decoded_content (b : BinaryContent) : option (list byte) :=
  match data_string b with
  | Some s => Base64.decode s
  | None => None
  end.

Inductive Content :=
| TextContent (text : string)
| BinaryItem (b : BinaryContent).

Inductive AuthorRole := RoleSystem | RoleUser | RoleAssistant.

Record ChatMessageContent := mkMessage {
  role : AuthorRole;
  items : list Content;
}.

(** [ChatHistory()]: an ordered, append-only sequence of messages. *)
Definition ChatHistory := list ChatMessageContent.

Definition add_user_message (h : ChatHistory) (its : list Content) : ChatHistory :=
  h ++ [{| role := RoleUser; items := its |}].

(** The thread handle, an opaque token of the remote service. *)
Record AgentThread := mkThread { thread_id : string }.

#[global] Instance AgentThread_eq_dec : EqDecision AgentThread.
Proof. solve_decision. Defined.

(** What [invoke_stream] accepts as [messages]. *)
Inductive Messages :=
| MessagesStr (s : string)
| MessagesContent (ms : list ChatMessageContent).

(** One streamed fragment: [response.name], [response.content] and
    [response.thread]. *)
Record Response := mkResponse {
  name : string;
  content : string;
  thread : AgentThread;
}.

Record Agent := mkAgent {
  ai_model_id : string;
  client : string;
  instructions : string;
  agent_name : string;
}.

(* ===================================================================== *)
(** ** Exceptions, events, the world *)
(* ===================================================================== *)

Inductive exn :=
| FileNotFoundError (path : string)
| Exception (kind : string) (msg : string).

Inductive result (A : Type) :=
| Ok (a : A)
| Raise (e : exn).
Arguments Ok {A} a.
Arguments Raise {A} e.

Inductive event :=
| EvPrint (s : string)
    (** text written to the console, line end included *)
| EvSubmit (m : Messages) (th : option AgentThread)
    (** a request handed to the remote service by [agent.invoke_stream] *)
| EvRecv (r : Response)
    (** a fragment delivered by the stream *)
| EvStreamEnd
    (** the stream is exhausted *)
| EvStreamError (e : exn)
    (** the stream raised *).

Record World := mkWorld {
  fs : gmap string (list byte);
  trace : list event;
}.

Definition init_world (f : gmap string (list byte)) : World :=
  {| fs := f; trace := [] |}.

(** A stream as the consumer sees it: the fragments, then a normal end or an
    exception. *)
Definition Stream : Type := list Response * option exn.

(** The collaborators outside the script. *)
Record Environment := mkEnvironment {
  (** [OpenAIResponsesAgent.setup_resources()]: the client and the model. *)
  setup_resources : result (string * string);
  (** the path computed from [__file__] for [employees.pdf] *)
  pdf_file_path : string;
  (** the name [tempfile.NamedTemporaryFile(suffix=".txt")] picks *)
  NamedTemporaryFile : gmap string (list byte) -> result string;
  (** the constructor [OpenAIResponsesAgent(...)] *)
  OpenAIResponsesAgent : string -> string -> string -> string -> result Agent;
  (** the (mocked) service behind [agent.invoke_stream]: its answer may
      depend on everything observed so far *)
  invoke_stream : Agent -> list event -> Messages -> option AgentThread -> Stream;
}.

(** *** The monad of the script: state and exceptions *)

Definition M (A : Type) : Type := World -> result A * World.

Definition ret {A} (a : A) : M A := fun w => (Ok a, w).

Definition bind {A B} (m : M A) (k : A -> M B) : M B :=
  fun w =>
    match m w with
    | (Ok a, w') => k a w'
    | (Raise e, w') => (Raise e, w')
    end.

Definition raise {A} (e : exn) : M A := fun w => (Raise e, w).

Definition lift {A} (r : result A) : M A := fun w => (r, w).

Declare Scope prog_scope.
Delimit Scope prog_scope with prog.
Notation "x <- m ;; k" := (bind m (fun x => k))
  (at level 100, m at next level, right associativity) : prog_scope.
Notation "m ;; k" := (bind m (fun _ => k))
  (at level 100, right associativity) : prog_scope.
Local Open Scope prog_scope.

(** [try: body finally: fin]: [fin] runs on both exits; an exception of
    [body] is raised again after [fin], unless [fin] raises itself. *)
Definition try_finally {A} (body : M A) (fin : M unit) : M A :=
  fun w =>
    match body w with
    | (r, w1) =>
        match fin w1 with
        | (Ok _, w2) => (r, w2)
        | (Raise e, w2) => (Raise e, w2)
        end
    end.

Definition emit (e : event) : M unit :=
  fun w => (Ok tt, {| fs := fs w; trace := trace w ++ [e] |}).

Definition get_trace : M (list event) := fun w => (Ok (trace w), w).

(** [print(s)] *)
Definition print (s : string) : M unit := emit (EvPrint (s +:+ LF)).

(** [print(s, end="", flush=True)] *)
Definition print_flush (s : string) : M unit := emit (EvPrint s).

(** *** File system primitives *)

(** [os.path.exists] *)
Definition path_exists (p : string) : M bool :=
  fun w => (Ok (bool_decide (is_Some (fs w !! p))), w).

(** [os.unlink] *)
Definition unlink (p : string) : M unit :=
  fun w =>
    match fs w !! p with
    | Some _ => (Ok tt, {| fs := delete p (fs w); trace := trace w |})
    | None => (Raise (FileNotFoundError p), w)
    end.

(** Writing [d] to the file [p], creating or truncating it. *)
Definition write_file (p : string) (d : list byte) : M unit :=
  fun w => (Ok tt, {| fs := <[p := d]> (fs w); trace := trace w |}).

(** Modelled from the spec: [BinaryContent.from_file] reads the entire file
    into memory and associates the media type; it surfaces a file-not-found
    failure if the path is invalid. *)
Definition from_file (file_path : string) (mime : string) : M BinaryContent :=
  fun w =>
    match fs w !! file_path with
    | Some d => (Ok (BinaryContent_init d mime None), w)
    | None => (Raise (FileNotFoundError file_path), w)
    end.

(* ===================================================================== *)
(** ** The script *)
(* ===================================================================== *)

(** Sample questions about the uploaded files. *)
Definition USER_INPUTS : list string :=
  [ "What type of files did I upload?";
    "Can you tell me about the content in the PDF file?";
    "What does the text file contain?";
    "Summarize all the uploaded documents." ].

(** Create sample text content for demonstration. *)
Definition create_sample_text_content : string :=
"Company Policy Document - Remote Work Guidelines

This document outlines our company's remote work policies and procedures.

Remote Work Eligibility:
- Full-time employees with at least 6 months tenure
- Managers approval required
- Home office setup must meet security requirements

Work Schedule:
- Core hours: 10 AM - 3 PM local time
- Flexible start/end times outside core hours
- Maximum 3 remote days per week for hybrid roles

Communication Requirements:
- Daily check-ins with team lead
- Weekly video conference participation
- Response time: within 4 hours during business hours

Equipment and Security:
- Company-provided laptop and VPN access
- Secure Wi-Fi connection required
- No public Wi-Fi for work activities

For questions about remote work policies, contact HR at hr@company.com
".

Definition INSTRUCTIONS : string :=
  "You are a helpful assistant that can analyze uploaded files. " +:+
  "When users upload files, examine their content and provide helpful insights. " +:+
  "You can identify file types, summarize content, and answer questions about the files.".

Section Script.

Variable E : Environment.

(** [with tempfile.NamedTemporaryFile(mode="w", suffix=".txt", delete=False)
    as text_file]: the file is created empty under the name the system
    picks, the text is written to it (text mode, taken as UTF-8 without
    newline translation) and the file is closed; it is not deleted on
    close. *)
Definition create_text_file : M (string * string) :=
  text_file_path <- (fun w => (NamedTemporaryFile E (fs w), w));;
  write_file text_file_path [];;
  let text_content := create_sample_text_content in
  write_file text_file_path (utf8_encode text_content);;
  ret (text_content, text_file_path).

(** Step 3 of the [try] block: the attachments. *)
Definition load_attachments (pdf_path text_file_path text_content : string)
    : M (BinaryContent * BinaryContent * BinaryContent) :=
  print "Creating BinaryContent from files...";;
  pdf_binary_content <- from_file pdf_path "application/pdf";;
  print ("Created PDF BinaryContent: " +:+ mime_type pdf_binary_content +:+
         ", can_read: " +:+ str_of_bool (can_read pdf_binary_content));;
  text_binary_content <- from_file text_file_path "text/plain";;
  print ("Created text BinaryContent: " +:+ mime_type text_binary_content +:+
         ", can_read: " +:+ str_of_bool (can_read text_binary_content));;
  let alternative_text_content :=
    BinaryContent_init (utf8_encode text_content) "text/plain" (Some "base64") in
  print ("Alternative text BinaryContent: " +:+ mime_type alternative_text_content);;
  ret (pdf_binary_content, text_binary_content, alternative_text_content).

(** Step 5: the initial chat history with the uploaded files. *)
Definition initial_chat_history (pdf_binary_content text_binary_content : BinaryContent)
    : ChatHistory :=
  add_user_message []
    [ TextContent "I'm uploading a PDF document and a text file for you to analyze.";
      BinaryItem pdf_binary_content;
      BinaryItem text_binary_content ].

(** The body of [async for response in agent.invoke_stream(...)], over the
    fragments the stream delivers. *)
Fixpoint consume (frags : list Response) (th : option AgentThread)
    (first_chunk : bool) : M (option AgentThread) :=
  match frags with
  | [] => ret th
  | response :: rest =>
      emit (EvRecv response);;
      let th := Some (thread response) in
      (if first_chunk
       then print_flush ("# " +:+ name response +:+ ": ")
       else ret tt);;
      print_flush (content response);;
      consume rest th false
  end.

(** One iteration of [for user_input in USER_INPUTS]. *)
Definition turn (agent : Agent) (user_input : string) (th : option AgentThread)
    : M (option AgentThread) :=
  print (LF +:+ "# User: '" +:+ user_input +:+ "'");;
  tr <- get_trace;;
  let '(frags, err) := invoke_stream E agent tr (MessagesStr user_input) th in
  emit (EvSubmit (MessagesStr user_input) th);;
  th' <- consume frags th true;;
  match err with
  | Some e => emit (EvStreamError e);; raise e
  | None => emit EvStreamEnd;; print "";; ret th'
  end.

(** Step 6: the conversation. *)
Fixpoint conversation (agent : Agent) (inputs : list string)
    (th : option AgentThread) : M unit :=
  match inputs with
  | [] => ret tt
  | user_input :: rest =>
      th' <- turn agent user_input th;;
      conversation agent rest th'
  end.

(** The [try] block of [main]. *)
Definition main_try (client model pdf_path text_file_path text_content : string)
    : M unit :=
  atts <- load_attachments pdf_path text_file_path text_content;;
  let '(pdf_binary_content, text_binary_content, alternative_text_content) := atts in
  agent <- lift (OpenAIResponsesAgent E model client INSTRUCTIONS "FileAnalyzer");;
  let chat_history := initial_chat_history pdf_binary_content text_binary_content in
  let th := None in
  conversation agent USER_INPUTS th.

(** Step 7, the [finally] block: clean up the temporary text file. *)
Definition cleanup (text_file_path : string) : M unit :=
  ex <- path_exists text_file_path;;
  if ex then unlink text_file_path else ret tt.

Definition epilogue : M unit :=
  print (LF +:+ str_repeat "=" 60);;
  print "Sample completed!";;
  print (LF +:+ "Key points about BinaryContent:");;
  print "1. Use BinaryContent.from_file() to create from existing files";;
  print "2. Use BinaryContent(data=...) to create from bytes/string data";;
  print "3. Specify appropriate mime_type for proper handling";;
  print "4. BinaryContent can be included in chat messages alongside text";;
  print "5. The OpenAI Responses API will process supported file types";;
  print (LF +:+ "Supported file types include:");;
  print "- PDF documents (application/pdf)";;
  print "- Text files (text/plain)".

Definition main : M unit :=
  cm <- lift (setup_resources E);;
  let '(client, model) := cm in
  let pdf_path := pdf_file_path E in
  tf <- create_text_file;;
  let '(text_content, text_file_path) := tf in
  try_finally
    (main_try client model pdf_path text_file_path text_content)
    (cleanup text_file_path);;
  epilogue.

End Script.

(* ===================================================================== *)
(** ** Observations on a trace *)
(* ===================================================================== *)

(** What has been written to the console, in order. *)
Definition printed (tr : list event) : list string :=
  omap (fun ev => match ev with EvPrint s => Some s | _ => None end) tr.

Definition concat_str (l : list string) : string :=
  foldr String.append "" l.

(** The console output as one string. *)
Definition stdout (tr : list event) : string := concat_str (printed tr).

(** The fragments received, in arrival order. *)
Definition received (tr : list event) : list Response :=
  omap (fun ev => match ev with EvRecv r => Some r | _ => None end) tr.

(** Every fragment received is among the printed pieces, in order. *)
Definition echo_sublist (tr : list event) : Prop :=
  map content (received tr) `sublist_of` printed tr.

(** A turn as the service sees it: the request and the fragments streamed
    back for it. *)
Record Turn := mkTurn {
  req_messages : Messages;
  req_thread : option AgentThread;
  fragments : list Response;
}.

(** Cuts a trace at its requests: the fragments before the first request,
    then one [Turn] per request. *)
Fixpoint split_turns (tr : list event) : list Response * list Turn :=
  match tr with
  | [] => ([], [])
  | ev :: tr' =>
      let '(pre, ts) := split_turns tr' in
      match ev with
      | EvRecv r => (r :: pre, ts)
      | EvSubmit m th =>
          ([], {| req_messages := m; req_thread := th; fragments := pre |} :: ts)
      | _ => (pre, ts)
      end
  end.

Definition turns_of (tr : list event) : list Turn := (split_turns tr).2.

(** The text a turn streams: its fragments' contents, concatenated. *)
Definition turn_text (t : Turn) : string :=
  concat_str (map content (fragments t)).

(** The handle carried by the last fragment of a turn, if any. *)
Definition captured (t : Turn) : option AgentThread :=
  thread <$> last (fragments t).

(** [contains_in_order ts s]: the texts [ts] occur in [s] one after the
    other, each as one contiguous piece. *)
Inductive contains_in_order : list string -> string -> Prop :=
| cio_nil s : contains_in_order [] s
| cio_cons t ts a s :
    contains_in_order ts s ->
    contains_in_order (t :: ts) (a +:+ t +:+ s).

(** The protocol of the conversation, as an automaton over the trace:
    [false] is idle, [true] is one request outstanding.  A request may
    only start when idle; fragments and the end of a stream only occur
    while a request is outstanding. *)
Fixpoint sequential_from (busy : bool) (tr : list event) : bool :=
  match tr with
  | [] => negb busy
  | EvSubmit _ _ :: tr' => negb busy && sequential_from true tr'
  | EvRecv _ :: tr' => busy && sequential_from true tr'
  | EvStreamEnd :: tr' | EvStreamError _ :: tr' => busy && sequential_from false tr'
  | EvPrint _ :: tr' => sequential_from busy tr'
  end.

Definition sequential (tr : list event) : bool := sequential_from false tr.

(** The number of requests outstanding after a trace. *)
Fixpoint outstanding (tr : list event) : Z :=
  match tr with
  | [] => 0
  | EvSubmit _ _ :: tr' => outstanding tr' + 1
  | EvStreamEnd :: tr' | EvStreamError _ :: tr' => outstanding tr' - 1
  | _ :: tr' => outstanding tr'
  end.

(** The world [w] after the events [evs]. *)
Definition after (w : World) (evs : list event) : World :=
  {| fs := fs w; trace := trace w ++ evs |}.

(** The world after the [finally] block has removed [p]. *)
Definition cleaned (p : string) (w : World) : World :=
  {| fs := delete p (fs w); trace := trace w |}.

(* ===================================================================== *)
(** ** The shape of a conversation in the trace *)
(* ===================================================================== *)

Definition is_print (ev : event) : Prop :=
  match ev with EvPrint _ => True | _ => False end.

Definition is_submit (ev : event) : Prop :=
  match ev with EvSubmit _ _ => True | _ => False end.

(** The handle held after a stream: that of its last fragment, or the one
    held before when the stream delivered nothing. *)
Fixpoint thread_after (th : option AgentThread) (frags : list Response)
    : option AgentThread :=
  match frags with
  | [] => th
  | r :: rest => thread_after (Some (thread r)) rest
  end.

(** The events of a stream consumed fragment by fragment: each fragment is
    received and printed before the next one is taken; the first is
    preceded by the [# name: ] prefix. *)
Fixpoint consume_events (frags : list Response) (first_chunk : bool) : list event :=
  match frags with
  | [] => []
  | r :: rest =>
      EvRecv r ::
      (if first_chunk then [EvPrint ("# " +:+ name r +:+ ": ")] else []) ++
      EvPrint (content r) :: consume_events rest false
  end.

(** How a stream ends: normally, followed by the new line, or by its
    exception. *)
Definition stream_end (err : option exn) : list event :=
  match err with
  | None => [EvStreamEnd; EvPrint ("" +:+ LF)]
  | Some e => [EvStreamError e]
  end.

Definition user_line (user_input : string) : string :=
  (LF +:+ "# User: '" +:+ user_input +:+ "'") +:+ LF.

(** The events of one turn. *)
Definition turn_events (user_input : string) (th : option AgentThread)
    (frags : list Response) (err : option exn) : list event :=
  EvPrint (user_line user_input) :: EvSubmit (MessagesStr user_input) th ::
  consume_events frags true ++ stream_end err.

(** [conv_run E agent tr0 th ts evs r]: starting after the trace [tr0] with
    the handle [th], a conversation with the service of [E] makes the turns
    [ts], leaves the events [evs] and ends with [r]. *)
Inductive conv_run (E : Environment) (agent : Agent)
    : list event -> option AgentThread -> list Turn -> list event -> result unit -> Prop :=
| conv_done tr0 th :
    conv_run E agent tr0 th [] [] (Ok tt)
| conv_abort tr0 th u frags e :
    invoke_stream E agent (tr0 ++ [EvPrint (user_line u)]) (MessagesStr u) th
      = (frags, Some e) ->
    conv_run E agent tr0 th
      [{| req_messages := MessagesStr u; req_thread := th; fragments := frags |}]
      (turn_events u th frags (Some e)) (Raise e)
| conv_next tr0 th u frags ts evs r :
    invoke_stream E agent (tr0 ++ [EvPrint (user_line u)]) (MessagesStr u) th
      = (frags, None) ->
    conv_run E agent (tr0 ++ turn_events u th frags None)
      (thread_after th frags) ts evs r ->
    conv_run E agent tr0 th
      ({| req_messages := MessagesStr u; req_thread := th; fragments := frags |} :: ts)
      (turn_events u th frags None ++ evs) r.

(** [served E tr]: every request of the trace is followed by the whole
    stream the service answers it with, echoed fragment by fragment, and
    by the end of that stream. *)
Definition served (E : Environment) (tr : list event) : Prop :=
  forall pre m th post,
    tr = pre ++ EvSubmit m th :: post ->
    exists agent post',
      let '(frags, err) := invoke_stream E agent pre m th in
      post = consume_events frags true ++ stream_end err ++ post'.

(** [echoed tr]: each fragment received is printed on the spot, after at
    most the [# name: ] prefix, and the next event is the next fragment or
    the end of the stream. *)
Definition stream_continues (tr : list event) : Prop :=
  match tr with
  | EvRecv _ :: _ | EvStreamEnd :: _ | EvStreamError _ :: _ => True
  | _ => False
  end.

Fixpoint echoed (tr : list event) : Prop :=
  match tr with
  | [] => True
  | EvRecv r :: tr' =>
      (exists post,
         (tr' = EvPrint (content r) :: post \/
          tr' = EvPrint ("# " +:+ name r +:+ ": ") :: EvPrint (content r) :: post) /\
         stream_continues post) /\
      echoed tr'
  | _ :: tr' => echoed tr'
  end.

(** The handles of consecutive turns: the first request carries none; a
    later one carries the handle of the last fragment of the turn before
    or, when that turn streamed nothing, the handle that turn was itself
    submitted with. *)
Definition handle_kept (ts : list Turn) : Prop :=
  (forall t, ts !! 0%nat = Some t -> req_thread t = None) /\
  (forall i t1 t2, ts !! i = Some t1 -> ts !! S i = Some t2 ->
     req_thread t2 = match captured t1 with
                     | Some h => Some h
                     | None => req_thread t1
                     end).

(** The reading under which every later request carries a handle captured
    from a fragment of the turn just before. *)
Definition handle_from_previous (ts : list Turn) : Prop :=
  (forall t, ts !! 0%nat = Some t -> req_thread t = None) /\
  (forall i t1 t2, ts !! i = Some t1 -> ts !! S i = Some t2 ->
     exists r, r ∈ fragments t1 /\ req_thread t2 = Some (thread r)).

(** A request that carries only a plain question of [USER_INPUTS]. *)
Definition plain_question (t : Turn) : Prop :=
  exists u, u ∈ USER_INPUTS /\ req_messages t = MessagesStr u.

(** A request that carries the attachment [b] in one of its messages. *)
Definition carries (b : BinaryContent) (t : Turn) : Prop :=
  exists ms msg, req_messages t = MessagesContent ms /\ msg ∈ ms /\
                 BinaryItem b ∈ items msg.

(* ===================================================================== *)
(** ** A mocked service *)
(* ===================================================================== *)

Module Mock.

Fixpoint count_submits (tr : list event) : nat :=
  match tr with
  | [] => 0
  | EvSubmit _ _ :: tr' => S (count_submits tr')
  | _ :: tr' => count_submits tr'
  end.

Definition pdf : string := "samples/concepts/resources/file_search/employees.pdf".
Definition tmp : string := "/tmp/tmpk3v9x2.txt".

(** A service that answers the [k]-th request with the [k]-th canned
    stream. *)
Definition env (streams : list Stream) : Environment :=
  {| setup_resources := Ok ("client", "gpt-4o");
     pdf_file_path := pdf;
     NamedTemporaryFile := fun _ => Ok tmp;
     OpenAIResponsesAgent := fun m c i n => Ok (mkAgent m c i n);
     invoke_stream := fun _ tr _ _ => nth (count_submits tr) streams ([], None) |}.

Definition disk : gmap string (list byte) :=
  {[ pdf := utf8_encode "%PDF-1.4" ]}.

Definition t1 : AgentThread := mkThread "resp_1".
Definition t2 : AgentThread := mkThread "resp_2".
Definition t3 : AgentThread := mkThread "resp_3".
Definition t4 : AgentThread := mkThread "resp_4".

Definition frag (c : string) (t : AgentThread) : Response :=
  {| name := "FileAnalyzer"; content := c; thread := t |}.

(** Four answers, two fragments each. *)
Definition canned : list Stream :=
  [ ([frag "A PDF " t1; frag "and a text file." t1], None);
    ([frag "It lists " t2; frag "employees." t2], None);
    ([frag "The remote " t3; frag "work policy." t3], None);
    ([frag "Two " t4; frag "documents." t4], None) ].

(** The second answer streams nothing. *)
Definition silent_second : list Stream :=
  [ ([frag "A PDF and a text file." t1], None);
    ([], None);
    ([frag "The remote work policy." t3], None);
    ([frag "Two documents." t4], None) ].

(** The service fails in the middle of the second answer. *)
Definition failing_second : list Stream :=
  [ ([frag "A PDF and a text file." t1], None);
    ([frag "It lists " t2], Some (Exception "APIConnectionError" "connection reset")) ].

End Mock.

(* ===================================================================== *)
(** ** The console transcript *)
(* ===================================================================== *)

(** The progress lines of step 3, printed once both files are read. *)
Definition prologue_events : list event :=
  [ EvPrint ("Creating BinaryContent from files..." +:+ LF);
    EvPrint (("Created PDF BinaryContent: " +:+ "application/pdf" +:+
              ", can_read: " +:+ "True") +:+ LF);
    EvPrint (("Created text BinaryContent: " +:+ "text/plain" +:+
              ", can_read: " +:+ "True") +:+ LF);
    EvPrint (("Alternative text BinaryContent: " +:+ "text/plain") +:+ LF) ].

(** The closing lines printed after the [finally] block. *)
Definition epilogue_events : list event :=
  [ EvPrint ((LF +:+ str_repeat "=" 60) +:+ LF);
    EvPrint ("Sample completed!" +:+ LF);
    EvPrint ((LF +:+ "Key points about BinaryContent:") +:+ LF);
    EvPrint ("1. Use BinaryContent.from_file() to create from existing files" +:+ LF);
    EvPrint ("2. Use BinaryContent(data=...) to create from bytes/string data" +:+ LF);
    EvPrint ("3. Specify appropriate mime_type for proper handling" +:+ LF);
    EvPrint ("4. BinaryContent can be included in chat messages alongside text" +:+ LF);
    EvPrint ("5. The OpenAI Responses API will process supported file types" +:+ LF);
    EvPrint ((LF +:+ "Supported file types include:") +:+ LF);
    EvPrint ("- PDF documents (application/pdf)" +:+ LF);
    EvPrint ("- Text files (text/plain)" +:+ LF) ].

(** What one completed turn writes: the question, the name of the first
    fragment (if any fragment arrived), the fragments' contents and a new
    line. *)
Definition turn_output (t : Turn) : string :=
  match req_messages t with
  | MessagesStr u => user_line u
  | MessagesContent _ => ""
  end +:+
  match fragments t with
  | [] => ""
  | r :: _ => "# " +:+ name r +:+ ": "
  end +:+
  turn_text t +:+ LF.

(** The file system in which the [try] block starts. *)
Definition with_text_file (p : string) (f : gmap string (list byte))
    : gmap string (list byte) :=
  <[p := utf8_encode create_sample_text_content]> (<[p := []]> f).

(** The four ways a run can go. *)
Inductive main_case (E : Environment) (f : gmap string (list byte)) : Prop :=
| case_before_try e :
    (setup_resources E = Raise e \/
     (exists cm, setup_resources E = Ok cm) /\ NamedTemporaryFile E f = Raise e) ->
    main E (init_world f) = (Raise e, init_world f) ->
    main_case E f
| case_no_pdf cm p :
    setup_resources E = Ok cm ->
    NamedTemporaryFile E f = Ok p ->
    with_text_file p f !! pdf_file_path E = None ->
    main E (init_world f)
    = (Raise (FileNotFoundError (pdf_file_path E)),
       {| fs := delete p f;
          trace := [EvPrint ("Creating BinaryContent from files..." +:+ LF)] |}) ->
    main_case E f
| case_no_agent c m p e :
    setup_resources E = Ok (c, m) ->
    NamedTemporaryFile E f = Ok p ->
    OpenAIResponsesAgent E m c INSTRUCTIONS "FileAnalyzer" = Raise e ->
    main E (init_world f)
    = (Raise e, {| fs := delete p f; trace := prologue_events |}) ->
    main_case E f
| case_conversation c m p agent ts evs r :
    setup_resources E = Ok (c, m) ->
    NamedTemporaryFile E f = Ok p ->
    OpenAIResponsesAgent E m c INSTRUCTIONS "FileAnalyzer" = Ok agent ->
    conv_run E agent prologue_events None ts evs r ->
    (r = Ok tt -> map req_messages ts = map MessagesStr USER_INPUTS) ->
    main E (init_world f)
    = (r, {| fs := delete p f;
             trace := prologue_events ++ evs ++
                      match r with Ok _ => epilogue_events | Raise _ => [] end |}) ->
    main_case E f.

(* ===================================================================== *)
(** ** The answers of the service along a conversation *)
(* ===================================================================== *)

(** One answer: the question it answers, the handle the request carries,
    and the stream, that is its fragments and how it ends. *)
Record Answer := mkAnswer {
  question : string;
  handle : option AgentThread;
  ans_fragments : list Response;
  ans_error : option exn;
}.

Definition answer_events (a : Answer) : list event :=
  turn_events (question a) (handle a) (ans_fragments a) (ans_error a).

(** The streams the service of [E] produces when it is asked the questions
    [inputs] one after the other, after the trace [tr0] and with the handle
    [th]: each question is put with the handle left by the answer before;
    the questions after a stream that raises are not put. *)
Fixpoint service_answers (E : Environment) (agent : Agent) (tr0 : list event)
    (th : option AgentThread) (inputs : list string) : list Answer :=
  match inputs with
  | [] => []
  | u :: rest =>
      let '(frags, err) :=
        invoke_stream E agent (tr0 ++ [EvPrint (user_line u)]) (MessagesStr u) th in
      {| question := u; handle := th; ans_fragments := frags; ans_error := err |} ::
      match err with
      | Some _ => []
      | None =>
          service_answers E agent (tr0 ++ turn_events u th frags None)
            (thread_after th frags) rest
      end
  end.

(** The outcome of a conversation with these answers: the first exception
    of a stream, if any. *)
Fixpoint answers_result (answers : list Answer) : result unit :=
  match answers with
  | [] => Ok tt
  | a :: rest =>
      match ans_error a with
      | Some e => Raise e
      | None => answers_result rest
      end
  end.

(** The [# name: ] prefix of a stream: the name of its first fragment. *)
Definition name_prefix (frags : list Response) : string :=
  match frags with
  | [] => ""
  | r :: _ => "# " +:+ name r +:+ ": "
  end.

(** What a stream [frags] answering the question [u] puts on the console
    when it ends normally: the question, the prefix, every fragment's
    content in the order of the stream, a new line. *)
Definition streamed_output (u : string) (frags : list Response) : string :=
  user_line u +:+ name_prefix frags +:+ concat_str (map content frags) +:+ LF.

(** The same for an answer; a stream that raises leaves no new line. *)
Definition answer_output (a : Answer) : string :=
  user_line (question a) +:+ name_prefix (ans_fragments a) +:+
  concat_str (map content (ans_fragments a)) +:+
  match ans_error a with None => LF | Some _ => "" end.

Definition turn_of_answer (a : Answer) : Turn :=
  {| req_messages := MessagesStr (question a);
     req_thread := handle a;
     fragments := ans_fragments a |}.

(** A service whose answer to a question is fixed in advance. *)
Module MockByQuestion.

Definition env (answer : string -> Stream) : Environment :=
  {| setup_resources := Ok ("client", "gpt-4o");
     pdf_file_path := Mock.pdf;
     NamedTemporaryFile := fun _ => Ok Mock.tmp;
     OpenAIResponsesAgent := fun m c i n => Ok (mkAgent m c i n);
     invoke_stream := fun _ _ msg _ =>
       match msg with
       | MessagesStr u => answer u
       | MessagesContent _ => ([], None)
       end |}.

Definition agent : Agent := mkAgent "gpt-4o" "client" INSTRUCTIONS "FileAnalyzer".

(** Every question is answered in three fragments. *)
Definition echo (u : string) : list Response :=
  [ Mock.frag "You asked: " Mock.t1; Mock.frag u Mock.t1; Mock.frag " Done." Mock.t2 ].

(** The second question of [USER_INPUTS] fails after one fragment. *)
Definition fail_on_second (u : string) : Stream :=
  if String.eqb u "Can you tell me about the content in the PDF file?"
  then ([Mock.frag "It " Mock.t2], Some (Exception "APIConnectionError" "reset"))
  else (echo u, None).

End MockByQuestion.

Module MockFailures.

(** No credentials: [setup_resources] raises. *)
Definition env_no_setup : Environment :=
  {| setup_resources := Raise (Exception "AgentInitializationException" "no api key");
     pdf_file_path := Mock.pdf;
     NamedTemporaryFile := fun _ => Ok Mock.tmp;
     OpenAIResponsesAgent := fun m c i n => Ok (mkAgent m c i n);
     invoke_stream := fun _ _ _ _ => ([], None) |}.

(** The constructor of the agent raises. *)
Definition env_no_agent : Environment :=
  {| setup_resources := Ok ("client", "gpt-4o");
     pdf_file_path := Mock.pdf;
     NamedTemporaryFile := fun _ => Ok Mock.tmp;
     OpenAIResponsesAgent :=
       fun _ _ _ _ => Raise (Exception "AgentInitializationException" "bad model");
     invoke_stream := fun _ _ _ _ => ([], None) |}.

(** Another disk: the same path holds another PDF, next to a second file. *)
Definition other_disk : gmap string (list byte) :=
  {[ Mock.pdf := utf8_encode "%PDF-1.7 other"; "notes.md" := utf8_encode "n" ]}.

End MockFailures.

(* ===================================================================== *)
(** ** Base64 round trip *)
(* ===================================================================== *)

Example b64_Man : Base64.encode (utf8_encode "Man") = "TWFu".
Proof. reflexivity. Qed.

Example b64_Ma : Base64.encode (utf8_encode "Ma") = "TWE=".
Proof. reflexivity. Qed.

Example b64_M : Base64.decode "TQ==" = Some (utf8_encode "M").
Proof. reflexivity. Qed.

Lemma byte_of_N_to_N (b : byte) : byte_of_N (Byte.to_N b) = b.
Proof. destruct b; reflexivity. Qed.

Lemma byte_to_N_lt (b : byte) : (Byte.to_N b < 256)%N.
Proof. pose proof (Byte.to_N_bounded b). lia. Qed.

Lemma sextets_ok : forallb sextet_ok (map N.of_nat (seq 0 64)) = true.
Proof. vm_compute. reflexivity. Qed.

Lemma sextet_ok_lt (n : N) : (n < 64)%N -> sextet_ok n = true.
Proof.
  intros Hn.
  pose proof sextets_ok as Hall.
  rewrite forallb_forall in Hall. apply Hall.
  apply in_map_iff. exists (N.to_nat n). split; [lia|].
  apply in_seq. lia.
Qed.

Lemma value_of_char_of (n : N) :
  (n < 64)%N -> Base64.value_of (Base64.char_of n) = Some n.
Proof.
  intros Hn. apply sextet_ok_lt in Hn. unfold sextet_ok in Hn.
  apply andb_prop in Hn as [Hv _].
  destruct (Base64.value_of (Base64.char_of n)) as [m|]; [|discriminate].
  apply N.eqb_eq in Hv. by subst.
Qed.

Lemma char_of_not_pad (n : N) :
  (n < 64)%N -> Base64.is_pad (Base64.char_of n) = false.
Proof.
  intros Hn. apply sextet_ok_lt in Hn. unfold sextet_ok in Hn.
  apply andb_prop in Hn as [_ Hp]. by apply negb_true_iff in Hp.
Qed.

Ltac sextet_arith := zify; Z.to_euclidean_division_equations; lia.

Lemma bytes_ind3 (P : list byte -> Prop) :
  P [] ->
  (forall a, P [a]) ->
  (forall a b, P [a; b]) ->
  (forall a b c rest, P rest -> P (a :: b :: c :: rest)) ->
  forall bs, P bs.
Proof.
  intros H0 H1 H2 H3.
  fix IH 1.
  intros [|a [|b [|c rest]]]; [exact H0 | apply H1 | apply H2 |].
  apply H3, IH.
Qed.

Lemma decode_encode (bs : list byte) :
  Base64.decode (Base64.encode bs) = Some bs.
Proof.
  induction bs as [|a|a b|a b c rest IH] using bytes_ind3.
  - reflexivity.
  - pose proof (byte_to_N_lt a) as Ha.
    cbn [Base64.encode Base64.decode].
    rewrite !value_of_char_of by sextet_arith.
    replace (Base64.is_pad Base64.pad) with true by reflexivity.
    replace (Byte.to_N a / 4 * 4 + Byte.to_N a `mod` 4 * 16 / 16)%N
      with (Byte.to_N a) by sextet_arith.
    by rewrite byte_of_N_to_N.
  - pose proof (byte_to_N_lt a) as Ha. pose proof (byte_to_N_lt b) as Hb.
    cbn [Base64.encode Base64.decode].
    rewrite !value_of_char_of by sextet_arith.
    replace (Base64.is_pad Base64.pad) with true by reflexivity.
    rewrite char_of_not_pad by sextet_arith.
    replace (Byte.to_N a / 4 * 4 + (Byte.to_N a `mod` 4 * 16 + Byte.to_N b / 16) / 16)%N
      with (Byte.to_N a) by sextet_arith.
    replace ((Byte.to_N a `mod` 4 * 16 + Byte.to_N b / 16) `mod` 16 * 16
             + Byte.to_N b `mod` 16 * 4 / 4)%N
      with (Byte.to_N b) by sextet_arith.
    by rewrite !byte_of_N_to_N.
  - pose proof (byte_to_N_lt a) as Ha. pose proof (byte_to_N_lt b) as Hb.
    pose proof (byte_to_N_lt c) as Hc.
    cbn [Base64.encode Base64.decode].
    rewrite !value_of_char_of by sextet_arith.
    rewrite char_of_not_pad by sextet_arith.
    rewrite IH.
    replace (Byte.to_N a / 4 * 4 + (Byte.to_N a `mod` 4 * 16 + Byte.to_N b / 16) / 16)%N
      with (Byte.to_N a) by sextet_arith.
    replace ((Byte.to_N a `mod` 4 * 16 + Byte.to_N b / 16) `mod` 16 * 16
             + (Byte.to_N b `mod` 16 * 4 + Byte.to_N c / 64) / 4)%N
      with (Byte.to_N b) by sextet_arith.
    replace ((Byte.to_N b `mod` 16 * 4 + Byte.to_N c / 64) `mod` 4 * 64
             + Byte.to_N c `mod` 64)%N
      with (Byte.to_N c) by sextet_arith.
    by rewrite !byte_of_N_to_N.
Qed.

(* ===================================================================== *)
(** ** Attachments *)
(* ===================================================================== *)

(** C2. For every byte string [b] and media type [m], the attachment built
    by [BinaryContent(data=b, mime_type=m, data_format="base64")] declares
    the media type [m], holds [b], and its decoded content (the Base64 text
    decoded again) is [b]. *)
Theorem binary_content_base64_roundtrip (b : list byte) (m : string) :
  let bc := BinaryContent_init b m (Some "base64") in
  mime_type bc = m /\ data bc = b /\ decoded_content bc = Some b.
Proof.
  cbn zeta. repeat split.
  unfold decoded_content, data_string. cbn.
  apply decode_encode.
Qed.

(** C3. For every path naming an existing non-empty file and every media
    type supplied, [BinaryContent.from_file] returns an attachment whose
    buffer is the whole file, so non-empty, and whose media type is exactly
    the one supplied; the world is left as it was. *)
Theorem from_file_valid (w : World) (file_path mime : string) (d : list byte) :
  fs w !! file_path = Some d ->
  d <> [] ->
  exists bc,
    from_file file_path mime w = (Ok bc, w) /\
    data bc = d /\ data bc <> [] /\ mime_type bc = mime.
Proof.
  intros Hd Hne. eexists. unfold from_file. rewrite Hd.
  split; [reflexivity|]. cbn. auto.
Qed.

Lemma from_file_valid_witness :
  exists bc,
    from_file Mock.pdf "application/pdf" (init_world Mock.disk)
      = (Ok bc, init_world Mock.disk) /\
    data bc = utf8_encode "%PDF-1.4" /\ data bc <> [] /\
    mime_type bc = "application/pdf".
Proof.
  apply (from_file_valid (init_world Mock.disk) Mock.pdf "application/pdf"
           (utf8_encode "%PDF-1.4")).
  - reflexivity.
  - discriminate.
Defined.

Lemma from_file_missing (w : World) (file_path mime : string) :
  fs w !! file_path = None ->
  from_file file_path mime w = (Raise (FileNotFoundError file_path), w).
Proof. intros H. unfold from_file. by rewrite H. Qed.

(* ===================================================================== *)
(** ** The cleanup step *)
(* ===================================================================== *)

Lemma cleanup_spec (p : string) (w : World) :
  cleanup p w = (Ok tt, cleaned p w).
Proof.
  unfold cleanup, bind, path_exists, unlink, cleaned, ret.
  destruct (fs w !! p) as [d|] eqn:Hp.
  - rewrite bool_decide_eq_true_2 by eauto. by rewrite Hp.
  - rewrite bool_decide_eq_false_2 by (intros [? ?]; congruence).
    rewrite delete_id by done. by destruct w.
Qed.

(** C8. In every file-system state the cleanup step returns normally (in
    particular it never raises a file-not-found error), the file is absent
    afterwards, and a second run leaves the state of the first. *)
Theorem cleanup_total_idempotent (p : string) (w : World) :
  (cleanup p w).1 = Ok tt /\
  (forall q, (cleanup p w).1 <> Raise (FileNotFoundError q)) /\
  fs (cleanup p w).2 !! p = None /\
  cleanup p (cleanup p w).2 = (Ok tt, (cleanup p w).2).
Proof.
  rewrite !cleanup_spec. cbn [fst snd]. repeat split.
  - discriminate.
  - apply lookup_delete_eq.
  - unfold cleaned. cbn. by rewrite delete_delete_eq.
Qed.

(* ===================================================================== *)
(** ** Running the script *)
(* ===================================================================== *)

Lemma after_nil w : after w [] = w.
Proof. unfold after. rewrite app_nil_r. by destruct w. Qed.

Lemma after_after w a b : after (after w a) b = after w (a ++ b).
Proof. unfold after. cbn. by rewrite app_assoc. Qed.

Lemma emit_spec ev w : emit ev w = (Ok tt, after w [ev]).
Proof. reflexivity. Qed.

Lemma print_spec s w : print s w = (Ok tt, after w [EvPrint (s +:+ LF)]).
Proof. reflexivity. Qed.

Lemma print_flush_spec s w : print_flush s w = (Ok tt, after w [EvPrint s]).
Proof. reflexivity. Qed.

Lemma bind_ok {A B} (m : M A) (k : A -> M B) w a w' :
  m w = (Ok a, w') -> bind m k w = k a w'.
Proof. intros H. unfold bind. by rewrite H. Qed.

Lemma bind_raise {A B} (m : M A) (k : A -> M B) w e w' :
  m w = (Raise e, w') -> bind m k w = (Raise e, w').
Proof. intros H. unfold bind. by rewrite H. Qed.

Lemma consume_spec frags : forall th first_chunk w,
  consume frags th first_chunk w
  = (Ok (thread_after th frags), after w (consume_events frags first_chunk)).
Proof.
  induction frags as [|r rest IH]; intros th first_chunk w.
  - cbn. unfold ret. by rewrite after_nil.
  - cbn [consume consume_events thread_after].
    rewrite (bind_ok _ _ _ _ _ (emit_spec _ _)).
    destruct first_chunk.
    + rewrite (bind_ok _ _ _ _ _ (print_flush_spec _ _)).
      rewrite (bind_ok _ _ _ _ _ (print_flush_spec _ _)).
      rewrite IH, !after_after. reflexivity.
    + unfold ret at 1.
      rewrite (bind_ok _ _ _ tt (after w [EvRecv r]) eq_refl).
      rewrite (bind_ok _ _ _ _ _ (print_flush_spec _ _)).
      rewrite IH, !after_after. reflexivity.
Qed.

Section Runs.

Variable E : Environment.

Lemma turn_spec agent u th w frags err :
  invoke_stream E agent (trace w ++ [EvPrint (user_line u)]) (MessagesStr u) th
    = (frags, err) ->
  turn E agent u th w
  = (match err with
     | None => Ok (thread_after th frags)
     | Some e => Raise e
     end, after w (turn_events u th frags err)).
Proof.
  intros Hs. unfold turn.
  rewrite (bind_ok _ _ _ _ _ (print_spec _ _)).
  rewrite (bind_ok get_trace _ (after w [EvPrint (user_line u)])
             (trace w ++ [EvPrint (user_line u)])
             (after w [EvPrint (user_line u)]) eq_refl).
  rewrite Hs.
  rewrite (bind_ok _ _ _ _ _ (emit_spec _ _)).
  rewrite (bind_ok _ _ _ _ _ (consume_spec _ _ _ _)).
  destruct err as [e|].
  - rewrite (bind_ok _ _ _ _ _ (emit_spec _ _)).
    unfold raise. rewrite !after_after. reflexivity.
  - rewrite (bind_ok _ _ _ _ _ (emit_spec _ _)).
    rewrite (bind_ok _ _ _ _ _ (print_spec _ _)).
    unfold ret. rewrite !after_after. reflexivity.
Qed.

Lemma conversation_run agent inputs : forall th w,
  exists ts evs r,
    conversation E agent inputs th w = (r, after w evs) /\
    conv_run E agent (trace w) th ts evs r /\
    map req_messages ts `prefix_of` map MessagesStr inputs /\
    (r = Ok tt -> map req_messages ts = map MessagesStr inputs).
Proof.
  induction inputs as [|u rest IH]; intros th w.
  - exists [], [], (Ok tt). cbn. unfold ret. rewrite after_nil.
    repeat split; [constructor | done].
  - destruct (invoke_stream E agent (trace w ++ [EvPrint (user_line u)])
                (MessagesStr u) th) as [frags [e|]] eqn:Hs.
    + eexists [_], _, (Raise e). cbn [conversation].
      rewrite (bind_raise _ _ _ _ _ (turn_spec _ _ _ _ _ _ Hs)).
      repeat split; [by apply conv_abort | | discriminate].
      cbn. apply prefix_cons, prefix_nil.
    + destruct (IH (thread_after th frags) (after w (turn_events u th frags None)))
        as (ts & evs & r & Hrun & Hconv & Hpre & Hall).
      eexists (_ :: ts), _, r. cbn [conversation].
      rewrite (bind_ok _ _ _ _ _ (turn_spec _ _ _ _ _ _ Hs)).
      rewrite Hrun, after_after.
      repeat split; [by apply conv_next | |].
      * cbn. by apply prefix_cons.
      * intros Hr. cbn. f_equal. by apply Hall.
Qed.

End Runs.

(** *** The steps around the conversation *)

Lemma from_file_ok (w : World) (file_path mime : string) (d : list byte) :
  fs w !! file_path = Some d ->
  from_file file_path mime w = (Ok (BinaryContent_init d mime None), w).
Proof. intros H. unfold from_file. by rewrite H. Qed.

Lemma load_attachments_cases pdf p tc w :
  exists pre, Forall is_print pre /\
    match fs w !! pdf with
    | None =>
        load_attachments pdf p tc w = (Raise (FileNotFoundError pdf), after w pre)
    | Some d1 =>
        match fs w !! p with
        | None =>
            load_attachments pdf p tc w = (Raise (FileNotFoundError p), after w pre)
        | Some d2 =>
            load_attachments pdf p tc w
            = (Ok (BinaryContent_init d1 "application/pdf" None,
                   BinaryContent_init d2 "text/plain" None,
                   BinaryContent_init (utf8_encode tc) "text/plain" (Some "base64")),
               after w pre)
        end
    end.
Proof.
  unfold load_attachments.
  destruct (fs w !! pdf) as [d1|] eqn:Hpdf; [destruct (fs w !! p) as [d2|] eqn:Hp|].
  - eexists. split; cycle 1.
    + rewrite (bind_ok _ _ _ _ _ (print_spec _ _)).
      rewrite (bind_ok _ _ _ _ _ (from_file_ok (after w _) pdf _ d1 Hpdf)).
      rewrite (bind_ok _ _ _ _ _ (print_spec _ _)).
      rewrite (bind_ok _ _ _ _ _ (from_file_ok (after (after w _) _) p _ d2 Hp)).
      rewrite (bind_ok _ _ _ _ _ (print_spec _ _)).
      rewrite (bind_ok _ _ _ _ _ (print_spec _ _)).
      unfold ret. rewrite !after_after. reflexivity.
    + repeat constructor.
  - eexists. split; cycle 1.
    + rewrite (bind_ok _ _ _ _ _ (print_spec _ _)).
      rewrite (bind_ok _ _ _ _ _ (from_file_ok (after w _) pdf _ d1 Hpdf)).
      rewrite (bind_ok _ _ _ _ _ (print_spec _ _)).
      rewrite (bind_raise _ _ _ _ _ (from_file_missing (after (after w _) _) p _ Hp)).
      rewrite !after_after. reflexivity.
    + repeat constructor.
  - eexists. split; cycle 1.
    + rewrite (bind_ok _ _ _ _ _ (print_spec _ _)).
      rewrite (bind_raise _ _ _ _ _ (from_file_missing (after w _) pdf _ Hpdf)).
      reflexivity.
    + repeat constructor.
Qed.

Lemma epilogue_spec :
  exists post, Forall is_print post /\
    forall w, epilogue w = (Ok tt, after w post).
Proof.
  eexists. split; [|intros w; unfold epilogue, bind, print, emit, after; cbn;
                    rewrite <- ?app_assoc; reflexivity].
  repeat constructor.
Qed.

Section MainRuns.

Variable E : Environment.

Lemma main_try_shape c m pdf p tc w :
  exists r pre agent ts evs rc,
    main_try E c m pdf p tc w = (r, after w (pre ++ evs)) /\
    Forall is_print pre /\
    conv_run E agent (trace w ++ pre) None ts evs rc /\
    map req_messages ts `prefix_of` map MessagesStr USER_INPUTS /\
    (r = Ok tt -> map req_messages ts = map MessagesStr USER_INPUTS) /\
    (forall e, rc = Raise e -> r = Raise e).
Proof.
  pose (dummy := mkAgent "" "" "" "").
  destruct (load_attachments_cases pdf p tc w) as (pre & Hpre & Hload).
  unfold main_try.
  destruct (fs w !! pdf) as [d1|]; [destruct (fs w !! p) as [d2|]|].
  - rewrite (bind_ok _ _ _ _ _ Hload).
    destruct (OpenAIResponsesAgent E m c INSTRUCTIONS "FileAnalyzer")
      as [agent|e] eqn:Hagent.
    + unfold lift. rewrite (bind_ok _ _ (after w pre) agent (after w pre) eq_refl).
      destruct (conversation_run E agent USER_INPUTS None (after w pre))
        as (ts & evs & r & Hrun & Hconv & Hpfx & Hall).
      exists r, pre, agent, ts, evs, r. rewrite Hrun, after_after.
      repeat split; auto.
    + unfold lift. rewrite (bind_raise _ _ (after w pre) e (after w pre) eq_refl).
      exists (Raise e), pre, dummy, [], [], (Ok tt). rewrite app_nil_r.
      repeat split; [done | constructor | apply prefix_nil | discriminate
                    | discriminate].
  - rewrite (bind_raise _ _ _ _ _ Hload).
    exists (Raise (FileNotFoundError p)), pre, dummy, [], [], (Ok tt).
    rewrite app_nil_r.
    repeat split; [done | constructor | apply prefix_nil | discriminate
                  | discriminate].
  - rewrite (bind_raise _ _ _ _ _ Hload).
    exists (Raise (FileNotFoundError pdf)), pre, dummy, [], [], (Ok tt).
    rewrite app_nil_r.
    repeat split; [done | constructor | apply prefix_nil | discriminate
                  | discriminate].
Qed.

Lemma main_try_fs c m pdf p tc w :
  fs (main_try E c m pdf p tc w).2 = fs w.
Proof.
  destruct (main_try_shape c m pdf p tc w) as (r & pre & a & ts & evs & rc & H & _).
  by rewrite H.
Qed.



(** The world in which the [try] block starts: the temporary file holds
    the sample text. *)
Lemma create_text_file_spec f p :
  NamedTemporaryFile E f = Ok p ->
  create_text_file E (init_world f)
  = (Ok (create_sample_text_content, p),
     {| fs := <[p := utf8_encode create_sample_text_content]> (<[p := []]> f);
        trace := [] |}).
Proof.
  intros Hp. unfold create_text_file, bind, write_file, ret. cbn.
  by rewrite Hp.
Qed.

Lemma main_unfold f c m p :
  setup_resources E = Ok (c, m) ->
  NamedTemporaryFile E f = Ok p ->
  main E (init_world f)
  = match main_try E c m (pdf_file_path E) p create_sample_text_content
            {| fs := <[p := utf8_encode create_sample_text_content]> (<[p := []]> f);
               trace := [] |} with
    | (Ok _, w2) => epilogue (cleaned p w2)
    | (Raise e, w2) => (Raise e, cleaned p w2)
    end.
Proof.
  intros Hsetup Hp. unfold main.
  unfold lift at 1.
  rewrite (bind_ok _ _ (init_world f) (c, m) (init_world f)) by (by rewrite Hsetup).
  rewrite (bind_ok _ _ _ _ _ (create_text_file_spec f p Hp)).
  unfold bind at 1, try_finally.
  destruct (main_try _ _ _ _ _ _ _) as [[[]|e] w2]; by rewrite cleanup_spec.
Qed.

Lemma main_shape f :
  exists pre agent ts evs rc post,
    trace (main E (init_world f)).2 = pre ++ evs ++ post /\
    Forall is_print pre /\ Forall is_print post /\
    conv_run E agent pre None ts evs rc /\
    map req_messages ts `prefix_of` map MessagesStr USER_INPUTS /\
    ((main E (init_world f)).1 = Ok tt ->
       map req_messages ts = map MessagesStr USER_INPUTS) /\
    (forall e, rc = Raise e -> (main E (init_world f)).1 = Raise e).
Proof.
  pose (dummy := mkAgent "" "" "" "").
  destruct (setup_resources E) as [[c m]|e] eqn:Hsetup; cycle 1.
  { exists [], dummy, [], [], (Ok tt), [].
    unfold main, lift. rewrite (bind_raise _ _ (init_world f) e (init_world f))
      by (by rewrite Hsetup).
    repeat split; [constructor.. | apply prefix_nil | discriminate | discriminate]. }
  destruct (NamedTemporaryFile E f) as [p|e] eqn:Hp; cycle 1.
  { exists [], dummy, [], [], (Ok tt), [].
    unfold main, lift. rewrite (bind_ok _ _ (init_world f) (c, m) (init_world f))
      by (by rewrite Hsetup).
    assert (create_text_file E (init_world f) = (Raise e, init_world f)) as Hc.
    { unfold create_text_file, bind. cbn. by rewrite Hp. }
    rewrite (bind_raise _ _ _ _ _ Hc).
    repeat split; [constructor.. | apply prefix_nil | discriminate | discriminate]. }
  rewrite (main_unfold f c m p Hsetup Hp).
  destruct (main_try_shape c m (pdf_file_path E) p create_sample_text_content
              {| fs := <[p := utf8_encode create_sample_text_content]> (<[p := []]> f);
                 trace := [] |})
    as (r & pre & agent & ts & evs & rc & Hrun & Hpre & Hconv & Hpfx & Hall & Herr).
  rewrite Hrun. cbn [trace app] in Hconv.
  destruct epilogue_spec as (post & Hpost & Hepi).
  destruct r as [[]|e].
  - exists pre, agent, ts, evs, rc, post. rewrite Hepi. cbn.
    rewrite <- app_assoc.
    repeat split; auto.
  - exists pre, agent, ts, evs, rc, []. cbn. rewrite app_nil_r.
    repeat split; auto.
Qed.

End MainRuns.

(* ===================================================================== *)
(** ** Reading a conversation off the trace *)
(* ===================================================================== *)

Lemma str_app_assoc (a b c : string) : (a +:+ b) +:+ c = a +:+ (b +:+ c).
Proof.
  induction a as [|x a IH]; [reflexivity|].
  change (String x ((a +:+ b) +:+ c) = String x (a +:+ (b +:+ c))).
  by f_equal.
Qed.

Lemma concat_str_app (l k : list string) :
  concat_str (l ++ k) = concat_str l +:+ concat_str k.
Proof.
  unfold concat_str.
  induction l as [|s l IH]; cbn [foldr app]; [done|].
  by rewrite IH, str_app_assoc.
Qed.

Lemma printed_app (a b : list event) : printed (a ++ b) = printed a ++ printed b.
Proof. unfold printed. apply omap_app. Qed.

Lemma stdout_app (a b : list event) : stdout (a ++ b) = stdout a +:+ stdout b.
Proof. unfold stdout. by rewrite printed_app, concat_str_app. Qed.

Lemma thread_after_last th frags :
  thread_after th frags
  = match last frags with Some r => Some (thread r) | None => th end.
Proof.
  revert th. induction frags as [|r rest IH]; intros th; [done|].
  cbn [thread_after]. rewrite IH.
  destruct rest as [|r' rest]; [done|]. rewrite last_cons_cons.
  destruct (last (r' :: rest)) eqn:Hl; [done|]. by apply last_None in Hl.
Qed.

(** *** Turns *)

Lemma split_turns_prints pre tr :
  Forall is_print pre -> split_turns (pre ++ tr) = split_turns tr.
Proof.
  induction 1 as [|ev pre Hev _ IH]; [done|].
  cbn. rewrite IH. destruct (split_turns tr). by destruct ev.
Qed.

Lemma split_turns_only_prints post :
  Forall is_print post -> split_turns post = ([], []).
Proof.
  intros H. rewrite <- (app_nil_r post). by rewrite split_turns_prints.
Qed.

Lemma split_turns_consume frags first_chunk rest :
  split_turns (consume_events frags first_chunk ++ rest)
  = (frags ++ (split_turns rest).1, (split_turns rest).2).
Proof.
  revert first_chunk. induction frags as [|r frags IH]; intros first_chunk.
  - cbn. by destruct (split_turns rest).
  - cbn [consume_events]. destruct first_chunk; cbn; by rewrite IH.
Qed.

Lemma split_turns_stream_end err rest :
  split_turns (stream_end err ++ rest) = split_turns rest.
Proof. destruct err; cbn; by destruct (split_turns rest). Qed.

Lemma split_turns_turn u th frags err rest ts :
  split_turns rest = ([], ts) ->
  split_turns (turn_events u th frags err ++ rest)
  = ([], {| req_messages := MessagesStr u; req_thread := th; fragments := frags |} :: ts).
Proof.
  intros Hrest. unfold turn_events.
  cbn [app split_turns]. rewrite <- app_assoc.
  rewrite split_turns_consume, split_turns_stream_end, Hrest. cbn.
  by rewrite app_nil_r.
Qed.

Lemma split_turns_conv E agent tr0 th ts evs r post :
  conv_run E agent tr0 th ts evs r ->
  Forall is_print post ->
  split_turns (evs ++ post) = ([], ts).
Proof.
  intros Hrun Hpost.
  induction Hrun as [tr0 th|tr0 th u frags e Hs|tr0 th u frags ts evs r Hs Hrun IH].
  - by apply split_turns_only_prints.
  - apply split_turns_turn. by apply split_turns_only_prints.
  - rewrite <- app_assoc. by apply split_turns_turn.
Qed.

Lemma conv_run_first E agent tr0 th ts evs r :
  conv_run E agent tr0 th ts evs r ->
  forall t, ts !! 0%nat = Some t -> req_thread t = th.
Proof. destruct 1; intros t Ht; by simplify_eq/=. Qed.

Lemma conv_run_chain E agent tr0 th ts evs r :
  conv_run E agent tr0 th ts evs r ->
  forall i t1 t2, ts !! i = Some t1 -> ts !! S i = Some t2 ->
    req_thread t2 = thread_after (req_thread t1) (fragments t1).
Proof.
  induction 1 as [tr0 th|tr0 th u frags e Hs|tr0 th u frags ts evs r Hs Hrun IH];
    intros i t1 t2 H1 H2.
  - done.
  - by destruct i.
  - destruct i as [|i]; simplify_eq/=.
    + by eapply conv_run_first.
    + by eapply IH.
Qed.

(** *** One request at a time *)

Lemma sequential_from_prints b pre tr :
  Forall is_print pre -> sequential_from b (pre ++ tr) = sequential_from b tr.
Proof.
  induction 1 as [|ev pre Hev _ IH]; [done|]. by destruct ev.
Qed.

Lemma sequential_from_consume frags first_chunk rest :
  sequential_from true (consume_events frags first_chunk ++ rest)
  = sequential_from true rest.
Proof.
  revert first_chunk. induction frags as [|r frags IH]; intros first_chunk; [done|].
  cbn [consume_events]. destruct first_chunk; cbn; apply IH.
Qed.

Lemma sequential_from_turn u th frags err rest :
  sequential_from false (turn_events u th frags err ++ rest)
  = sequential_from false rest.
Proof.
  unfold turn_events. cbn [app sequential_from negb andb].
  rewrite <- app_assoc, sequential_from_consume. by destruct err.
Qed.

Lemma sequential_from_conv E agent tr0 th ts evs r rest :
  conv_run E agent tr0 th ts evs r ->
  sequential_from false (evs ++ rest) = sequential_from false rest.
Proof.
  induction 1 as [tr0 th|tr0 th u frags e Hs|tr0 th u frags ts evs r Hs Hrun IH].
  - done.
  - apply sequential_from_turn.
  - by rewrite <- app_assoc, sequential_from_turn.
Qed.

Lemma sequential_only_prints b post :
  Forall is_print post -> sequential_from b post = negb b.
Proof.
  intros H. rewrite <- (app_nil_r post). by rewrite sequential_from_prints.
Qed.

Lemma sequential_outstanding tr : forall b n,
  sequential_from b tr = true ->
  (0 <= outstanding (take n tr) + (if b then 1 else 0) <= 1)%Z.
Proof.
  induction tr as [|ev tr IH]; intros b n Hseq.
  - rewrite take_nil. cbn. destruct b; lia.
  - destruct n as [|n]; [cbn; destruct b; lia|].
    cbn [take outstanding].
    destruct ev; cbn in Hseq.
    + by apply IH.
    + destruct b; [done|]. specialize (IH true n Hseq). cbn in IH. lia.
    + destruct b; [|done]. by apply (IH true n).
    + destruct b; [|done]. specialize (IH false n Hseq). cbn in IH. lia.
    + destruct b; [|done]. specialize (IH false n Hseq). cbn in IH. lia.
Qed.

(** *** What is printed *)

Lemma stdout_consume_rest frags :
  stdout (consume_events frags false) = concat_str (map content frags).
Proof.
  induction frags as [|r frags IH]; [done|].
  cbn [consume_events app map].
  change (stdout (EvRecv r :: EvPrint (content r) :: consume_events frags false))
    with (content r +:+ stdout (consume_events frags false)).
  by rewrite IH.
Qed.

Lemma stdout_consume frags :
  stdout (consume_events frags true)
  = match frags with
    | [] => ""
    | r :: _ => "# " +:+ name r +:+ ": "
    end +:+ concat_str (map content frags).
Proof.
  destruct frags as [|r frags]; [done|].
  cbn [consume_events app map].
  change (stdout (EvRecv r :: EvPrint ("# " +:+ name r +:+ ": ")
                    :: EvPrint (content r) :: consume_events frags false))
    with (("# " +:+ name r +:+ ": ") +:+ content r
          +:+ stdout (consume_events frags false)).
  by rewrite stdout_consume_rest.
Qed.

Lemma contains_in_order_weaken ts a s :
  contains_in_order ts s -> contains_in_order ts (a +:+ s).
Proof.
  destruct 1 as [s|t ts a' s H]; [constructor|].
  rewrite <- str_app_assoc. by constructor.
Qed.

Lemma stdout_turn u th frags err rest :
  exists a b,
    stdout (turn_events u th frags err ++ rest)
    = a +:+ concat_str (map content frags) +:+ b +:+ stdout rest.
Proof.
  exists (user_line u +:+ match frags with
                          | [] => ""
                          | r :: _ => "# " +:+ name r +:+ ": "
                          end),
         (stdout (stream_end err)).
  unfold turn_events.
  change (EvPrint (user_line u) :: EvSubmit (MessagesStr u) th
            :: consume_events frags true ++ stream_end err)
    with ([EvPrint (user_line u); EvSubmit (MessagesStr u) th]
            ++ consume_events frags true ++ stream_end err).
  rewrite !stdout_app, stdout_consume.
  change (stdout [EvPrint (user_line u); EvSubmit (MessagesStr u) th])
    with (user_line u +:+ "").
  rewrite !str_app_assoc. reflexivity.
Qed.

Lemma contains_in_order_conv E agent tr0 th ts evs r rest :
  conv_run E agent tr0 th ts evs r ->
  contains_in_order (map turn_text ts) (stdout (evs ++ rest)).
Proof.
  induction 1 as [tr0 th|tr0 th u frags e Hs|tr0 th u frags ts evs r Hs Hrun IH].
  - constructor.
  - destruct (stdout_turn u th frags (Some e) rest) as (a & b & ->).
    cbn [map]. constructor. constructor.
  - rewrite <- app_assoc.
    destruct (stdout_turn u th frags None (evs ++ rest)) as (a & b & ->).
    cbn [map]. constructor. by apply contains_in_order_weaken.
Qed.

Lemma received_app (a b : list event) : received (a ++ b) = received a ++ received b.
Proof. unfold received. apply omap_app. Qed.

Lemma echo_sublist_app a b : echo_sublist a -> echo_sublist b -> echo_sublist (a ++ b).
Proof.
  unfold echo_sublist. intros Ha Hb.
  rewrite received_app, printed_app, map_app. by apply sublist_app.
Qed.

Lemma echo_sublist_prints l : Forall is_print l -> echo_sublist l.
Proof.
  unfold echo_sublist. induction 1 as [|ev l Hev _ IH]; [done|].
  destruct ev; try done. cbn. by apply sublist_cons.
Qed.

Lemma echo_sublist_consume frags first_chunk :
  echo_sublist (consume_events frags first_chunk).
Proof.
  unfold echo_sublist. revert first_chunk.
  induction frags as [|r frags IH]; intros first_chunk; [done|].
  cbn [consume_events]. destruct first_chunk; cbn.
  - apply sublist_cons, sublist_skip, IH.
  - apply sublist_skip, IH.
Qed.

Lemma echo_sublist_turn u th frags err : echo_sublist (turn_events u th frags err).
Proof.
  unfold turn_events.
  apply (echo_sublist_app [EvPrint (user_line u); EvSubmit (MessagesStr u) th]).
  { unfold echo_sublist. cbn. apply sublist_nil_l. }
  apply echo_sublist_app; [apply echo_sublist_consume|].
  unfold echo_sublist. destruct err; cbn; apply sublist_nil_l.
Qed.

Lemma echo_sublist_conv E agent tr0 th ts evs r :
  conv_run E agent tr0 th ts evs r -> echo_sublist evs.
Proof.
  induction 1 as [tr0 th|tr0 th u frags e Hs|tr0 th u frags ts evs r Hs Hrun IH].
  - unfold echo_sublist. done.
  - apply echo_sublist_turn.
  - apply echo_sublist_app; [apply echo_sublist_turn | done].
Qed.

(** *** Fragments are echoed as they arrive *)

Lemma echoed_prints pre tr :
  Forall is_print pre -> echoed tr -> echoed (pre ++ tr).
Proof.
  induction 1 as [|ev pre Hev _ IH]; intros Htr; [done|].
  destruct ev; try done. cbn. by apply IH.
Qed.

Lemma stream_continues_consume frags rest :
  stream_continues rest ->
  stream_continues (consume_events frags false ++ rest).
Proof. by destruct frags. Qed.

Lemma echoed_consume frags first_chunk rest :
  stream_continues rest -> echoed rest ->
  echoed (consume_events frags first_chunk ++ rest).
Proof.
  intros Hc Hrest. revert first_chunk.
  induction frags as [|r frags IH]; intros first_chunk; [done|].
  cbn [consume_events]. destruct first_chunk.
  - cbn. split; [|by apply IH].
    eexists. split; [right; reflexivity|]. by apply stream_continues_consume.
  - cbn. split; [|by apply IH].
    eexists. split; [left; reflexivity|]. by apply stream_continues_consume.
Qed.

Lemma echoed_turn u th frags err rest :
  echoed rest -> echoed (turn_events u th frags err ++ rest).
Proof.
  intros Hrest. unfold turn_events. cbn [app echoed].
  rewrite <- app_assoc. apply echoed_consume; by destruct err.
Qed.

Lemma echoed_conv E agent tr0 th ts evs r rest :
  conv_run E agent tr0 th ts evs r ->
  echoed rest -> echoed (evs ++ rest).
Proof.
  induction 1 as [tr0 th|tr0 th u frags e Hs|tr0 th u frags ts evs r Hs Hrun IH];
    intros Hrest.
  - done.
  - by apply echoed_turn.
  - rewrite <- app_assoc. apply echoed_turn. by apply IH.
Qed.

Lemma echoed_only_prints post : Forall is_print post -> echoed post.
Proof.
  intros H. rewrite <- (app_nil_r post). by apply echoed_prints.
Qed.

(** *** Every request is answered by the whole stream *)

Lemma split_at_submit (l1 l2 pre post : list event) m h :
  Forall (fun ev => ~ is_submit ev) l1 ->
  l1 ++ l2 = pre ++ EvSubmit m h :: post ->
  exists pre', pre = l1 ++ pre' /\ l2 = pre' ++ EvSubmit m h :: post.
Proof.
  intros Hl1. revert pre.
  induction Hl1 as [|ev l1 Hev _ IH]; intros pre Heq.
  - by exists pre.
  - destruct pre as [|ev' pre]; simplify_eq/=.
    + by destruct Hev.
    + destruct (IH pre) as (pre' & -> & ->); [done|]. by exists pre'.
Qed.

Lemma consume_no_submit frags first_chunk :
  Forall (fun ev => ~ is_submit ev) (consume_events frags first_chunk).
Proof.
  revert first_chunk. induction frags as [|r frags IH]; intros first_chunk.
  - constructor.
  - cbn [consume_events]. destruct first_chunk; cbn; repeat (constructor; [tauto|]);
      apply IH.
Qed.

Lemma stream_end_no_submit err :
  Forall (fun ev => ~ is_submit ev) (stream_end err).
Proof. destruct err; repeat constructor; tauto. Qed.

Lemma prints_no_submit l :
  Forall is_print l -> Forall (fun ev => ~ is_submit ev) l.
Proof.
  intros H. eapply Forall_impl; [exact H|].
  intros ev Hp Hs. by destruct ev.
Qed.

Lemma served_conv E agent tr0 th ts evs r rest :
  conv_run E agent tr0 th ts evs r ->
  Forall (fun ev => ~ is_submit ev) rest ->
  forall pre m h post,
    evs ++ rest = pre ++ EvSubmit m h :: post ->
    exists post',
      let '(frags, err) := invoke_stream E agent (tr0 ++ pre) m h in
      post = consume_events frags true ++ stream_end err ++ post'.
Proof.
  intros Hrun Hrest.
  assert (forall pre m h post, rest <> pre ++ EvSubmit m h :: post) as Hno.
  { intros pre m h post ->. apply Forall_app in Hrest as [_ H].
    apply Forall_cons in H as [H _]. by apply H. }
  assert (forall tr0 th u frags err tail pre m h post,
    invoke_stream E agent (tr0 ++ [EvPrint (user_line u)]) (MessagesStr u) th
      = (frags, err) ->
    turn_events u th frags err ++ tail = pre ++ EvSubmit m h :: post ->
    (pre = [EvPrint (user_line u)] /\ m = MessagesStr u /\ h = th /\
     post = consume_events frags true ++ stream_end err ++ tail) \/
    (exists pre', pre = turn_events u th frags err ++ pre' /\
                  tail = pre' ++ EvSubmit m h :: post)) as Hturn.
  { clear. intros tr0 th u frags err tail pre m h post Hs Heq.
    unfold turn_events in *.
    destruct pre as [|ev1 [|ev2 pre]]; cbn in Heq.
    - discriminate.
    - injection Heq as H1 H2 H3 H4. subst. left. by rewrite <- app_assoc.
    - injection Heq as H1 H2 H3. subst ev1 ev2. right.
      rewrite <- app_assoc in H3.
      apply split_at_submit in H3 as (p1 & -> & H3);
        [|apply consume_no_submit].
      apply split_at_submit in H3 as (p2 & -> & H3);
        [|apply stream_end_no_submit].
      exists p2. split; [|done]. cbn. by rewrite <- ?app_assoc. }
  induction Hrun as [tr0 th|tr0 th u frags e Hs|tr0 th u frags ts evs r Hs Hrun IH];
    intros pre m h post Heq.
  - by apply Hno in Heq.
  - destruct (Hturn _ _ _ _ _ _ _ _ _ _ Hs Heq)
      as [(-> & -> & -> & ->)|(pre' & -> & Htail)].
    + exists rest. by rewrite Hs.
    + by apply Hno in Htail.
  - rewrite <- app_assoc in Heq.
    destruct (Hturn _ _ _ _ _ _ _ _ _ _ Hs Heq)
      as [(-> & -> & -> & ->)|(pre' & -> & Htail)].
    + exists (evs ++ rest). by rewrite Hs.
    + destruct (IH _ _ _ _ Htail) as (post' & Hpost').
      exists post'. by rewrite app_assoc.
Qed.

(* ===================================================================== *)
(** ** The temporary file *)
(* ===================================================================== *)

(** C10. [create_sample_text_content] is a fixed non-empty string; once the
    temporary file has been created it holds exactly the UTF-8 encoding of
    that string, and the attachment read from it in the [try] block holds
    these same bytes under the media type [text/plain]. *)
Theorem sample_text_written (E : Environment) (f : gmap string (list byte))
    (p : string) :
  NamedTemporaryFile E f = Ok p ->
  let created := create_text_file E (init_world f) in
  create_sample_text_content <> "" /\
  created.1 = Ok (create_sample_text_content, p) /\
  fs created.2 !! p = Some (utf8_encode create_sample_text_content) /\
  forall pdf_path w2 pdf_bc text_bc alt_bc,
    load_attachments pdf_path p create_sample_text_content created.2
      = (Ok (pdf_bc, text_bc, alt_bc), w2) ->
    data text_bc = utf8_encode create_sample_text_content /\
    mime_type text_bc = "text/plain".
Proof.
  intros Hp created. subst created.
  rewrite (create_text_file_spec E f p Hp). cbn [fst snd fs].
  split; [discriminate|]. split; [reflexivity|].
  assert (<[p:=utf8_encode create_sample_text_content]> (<[p:=[]]> f) !! p
          = Some (utf8_encode create_sample_text_content)) as Hfile
    by apply lookup_insert_eq.
  split; [exact Hfile|].
  intros pdf_path w2 pdf_bc text_bc alt_bc Hload.
  destruct (load_attachments_cases pdf_path p create_sample_text_content
              {| fs := <[p:=utf8_encode create_sample_text_content]> (<[p:=[]]> f);
                 trace := [] |}) as (pre & _ & Hcase).
  cbn [fs] in Hcase. rewrite Hfile in Hcase.
  destruct (_ !! pdf_path) as [d1|]; rewrite Hcase in Hload; by simplify_eq.
Qed.

Lemma sample_text_written_witness :
  let created := create_text_file (Mock.env Mock.canned) (init_world Mock.disk) in
  create_sample_text_content <> "" /\
  created.1 = Ok (create_sample_text_content, Mock.tmp) /\
  fs created.2 !! Mock.tmp = Some (utf8_encode create_sample_text_content) /\
  forall pdf_path w2 pdf_bc text_bc alt_bc,
    load_attachments pdf_path Mock.tmp create_sample_text_content created.2
      = (Ok (pdf_bc, text_bc, alt_bc), w2) ->
    data text_bc = utf8_encode create_sample_text_content /\
    mime_type text_bc = "text/plain".
Proof.
  apply (sample_text_written (Mock.env Mock.canned) Mock.disk Mock.tmp).
  reflexivity.
Defined.

(** C1. Whenever the temporary file has been created, it exists when the
    [try] block starts and it does not exist once [main] is over, whatever
    the outcome of the [try] block: a normal end or an exception raised
    while the attachments are built, the agent is created or the
    conversation is streamed. *)
Theorem temp_file_removed (E : Environment) (f : gmap string (list byte))
    (cm : string * string) (p : string) :
  setup_resources E = Ok cm ->
  NamedTemporaryFile E f = Ok p ->
  is_Some (fs (create_text_file E (init_world f)).2 !! p) /\
  fs (main E (init_world f)).2 !! p = None.
Proof.
  intros Hsetup Hp. destruct cm as [c m]. split.
  - rewrite (create_text_file_spec E f p Hp). cbn. rewrite lookup_insert_eq. eauto.
  - rewrite (main_unfold E f c m p Hsetup Hp).
    destruct (main_try _ _ _ _ _ _ _) as [[[]|e] w2].
    + destruct epilogue_spec as (post & _ & ->). cbn. apply lookup_delete_eq.
    + cbn. apply lookup_delete_eq.
Qed.

Lemma temp_file_removed_witness :
  is_Some (fs (create_text_file (Mock.env Mock.failing_second)
                 (init_world Mock.disk)).2 !! Mock.tmp) /\
  fs (main (Mock.env Mock.failing_second) (init_world Mock.disk)).2 !! Mock.tmp
  = None.
Proof.
  apply (temp_file_removed (Mock.env Mock.failing_second) Mock.disk
           ("client", "gpt-4o") Mock.tmp); reflexivity.
Defined.

(* ===================================================================== *)
(** ** Errors *)
(* ===================================================================== *)





(* ===================================================================== *)
(** ** The conversation *)
(* ===================================================================== *)

Section Conversation.

Variable E : Environment.
Variable f : gmap string (list byte).

Let run := main E (init_world f).
Let tr := trace run.2.

Lemma main_turns :
  exists pre agent evs rc post,
    tr = pre ++ evs ++ post /\
    Forall is_print pre /\ Forall is_print post /\
    conv_run E agent pre None (turns_of tr) evs rc /\
    (forall e, rc = Raise e -> run.1 = Raise e).
Proof.
  destruct (main_shape E f)
    as (pre & agent & ts & evs & rc & post & Htr & Hpre & Hpost & Hconv & _ & _ & Herr).
  exists pre, agent, evs, rc, post. repeat split; auto.
  replace (turns_of tr) with ts; [done|].
  unfold turns_of, tr, run. rewrite Htr, split_turns_prints by done.
  by rewrite (split_turns_conv _ _ _ _ _ _ _ _ Hconv Hpost).
Qed.

Lemma main_requests :
  map req_messages (turns_of tr) `prefix_of` map MessagesStr USER_INPUTS /\
  (run.1 = Ok tt -> map req_messages (turns_of tr) = map MessagesStr USER_INPUTS).
Proof.
  destruct (main_shape E f)
    as (pre & agent & ts & evs & rc & post & Htr & Hpre & Hpost & Hconv & Hpfx & Hall & _).
  replace (turns_of tr) with ts; [done|].
  unfold turns_of, tr, run. rewrite Htr, split_turns_prints by done.
  by rewrite (split_turns_conv _ _ _ _ _ _ _ _ Hconv Hpost).
Qed.

Lemma main_served : served E tr.
Proof.
  destruct main_turns as (pre & agent & evs & rc & post & Htr & Hpre & Hpost & Hconv & _).
  intros pre' m h post' Heq. rewrite Htr in Heq.
  apply split_at_submit in Heq as (p1 & -> & Heq); [|by apply prints_no_submit].
  destruct (served_conv _ _ _ _ _ _ _ post Hconv (prints_no_submit _ Hpost)
              _ _ _ _ Heq) as (rest & Hrest).
  by exists agent, rest.
Qed.

Lemma main_sequential : sequential tr = true.
Proof.
  destruct main_turns as (pre & agent & evs & rc & post & Htr & Hpre & Hpost & Hconv & _).
  unfold sequential. rewrite Htr, sequential_from_prints by done.
  rewrite (sequential_from_conv _ _ _ _ _ _ _ post Hconv).
  by rewrite sequential_only_prints.
Qed.

(** C5, as amended. The first request carries no thread handle; every
    later request carries the handle of the last fragment received in the
    turn before or, when that turn streamed no fragment, the handle that
    turn was itself submitted with. *)
Theorem handle_threaded_through_turns : handle_kept (turns_of tr).
Proof.
  destruct main_turns as (pre & agent & evs & rc & post & _ & _ & _ & Hconv & _).
  split.
  - by eapply conv_run_first.
  - intros i t1 t2 H1 H2.
    rewrite (conv_run_chain _ _ _ _ _ _ _ Hconv i t1 t2 H1 H2).
    rewrite thread_after_last. unfold captured.
    by destruct (last (fragments t1)).
Qed.

(** C7. In every run the trace obeys the one-request-at-a-time protocol: a
    request starts only when no stream is open; each request is followed
    by the whole stream of its answer and the end of that stream before
    anything else happens; at no point of the run is more than one request
    outstanding; the requests are the questions of [USER_INPUTS] in their
    order, all of them when [main] returns normally. *)
Theorem turns_strictly_sequential :
  sequential tr = true /\
  served E tr /\
  (forall n, (0 <= outstanding (take n tr) <= 1)%Z) /\
  map req_messages (turns_of tr) `prefix_of` map MessagesStr USER_INPUTS /\
  (run.1 = Ok tt -> map req_messages (turns_of tr) = map MessagesStr USER_INPUTS).
Proof.
  split; [apply main_sequential|]. split; [apply main_served|].
  split; [|apply main_requests].
  intros n. pose proof (sequential_outstanding tr false n main_sequential). lia.
Qed.

(** C9, what the code does. No request that reaches the service carries
    an attachment: every request holds one plain question of
    [USER_INPUTS], and the first one is submitted without a thread, so
    neither the chat history nor any [BinaryContent] is ever sent. *)
Theorem requests_carry_no_attachment :
  Forall plain_question (turns_of tr) /\
  (forall b, Forall (fun t => ~ carries b t) (turns_of tr)) /\
  (forall t, turns_of tr !! 0%nat = Some t -> req_thread t = None).
Proof.
  assert (Forall plain_question (turns_of tr)) as Hplain.
  { destruct main_requests as [Hpfx _].
    apply Forall_forall. intros t Ht.
    apply (list_elem_of_fmap_2 req_messages) in Ht.
    destruct Hpfx as [k Hk].
    assert (req_messages t ∈ map MessagesStr USER_INPUTS) as Hin.
    { rewrite Hk. apply elem_of_app. by left. }
    apply list_elem_of_fmap in Hin as (u & Hu & Hin). by exists u. }
  repeat split; [done| |].
  - intros b. eapply Forall_impl; [exact Hplain|].
    intros t (u & _ & Hu) (ms & msg & Hms & _). congruence.
  - destruct main_turns as (pre & agent & evs & rc & post & _ & _ & _ & Hconv & _).
    by eapply conv_run_first.
Qed.

End Conversation.

(** C5, as stated, fails: when the second answer streams nothing, the
    third request still carries the handle of the first answer, which no
    fragment of the turn before it delivered. *)
Lemma handle_from_previous_fails :
  ~ handle_from_previous
      (turns_of (trace (main (Mock.env Mock.silent_second)
                          (init_world Mock.disk)).2)).
Proof.
  intros [_ H].
  destruct (H 1%nat _ _ eq_refl eq_refl) as (r & Hr & _).
  vm_compute in Hr. by apply not_elem_of_nil in Hr.
Qed.

(* ===================================================================== *)
(** ** Runs against the mocked service *)
(* ===================================================================== *)

(** The chat history the script builds: one user message with the text
    part and the two attachments read from the files.  It is bound to a
    local name of the [try] block and is not handed to the agent. *)
Lemma initial_chat_history_items (pdf_bc text_bc : BinaryContent) :
  initial_chat_history pdf_bc text_bc
  = [ {| role := RoleUser;
         items := [ TextContent "I'm uploading a PDF document and a text file for you to analyze.";
                    BinaryItem pdf_bc; BinaryItem text_bc ] |} ].
Proof. reflexivity. Qed.

(** The sample text is plain ASCII: its UTF-8 encoding has one byte per
    character. *)
Lemma sample_text_ascii :
  utf8_encode create_sample_text_content
  = map byte_of_ascii (list_ascii_of_string create_sample_text_content).
Proof. vm_compute. reflexivity. Qed.

Example canned_requests :
  let tr := trace (main (Mock.env Mock.canned) (init_world Mock.disk)).2 in
  map (fun t => (req_messages t, req_thread t)) (turns_of tr)
  = [ (MessagesStr "What type of files did I upload?", None);
      (MessagesStr "Can you tell me about the content in the PDF file?", Some Mock.t1);
      (MessagesStr "What does the text file contain?", Some Mock.t2);
      (MessagesStr "Summarize all the uploaded documents.", Some Mock.t3) ].
Proof. vm_compute. reflexivity. Qed.

Example canned_turn_texts :
  let tr := trace (main (Mock.env Mock.canned) (init_world Mock.disk)).2 in
  map turn_text (turns_of tr)
  = [ "A PDF and a text file."; "It lists employees.";
      "The remote work policy."; "Two documents." ].
Proof. vm_compute. reflexivity. Qed.

Example silent_second_threads :
  let tr := trace (main (Mock.env Mock.silent_second) (init_world Mock.disk)).2 in
  map req_thread (turns_of tr)
  = [ None; Some Mock.t1; Some Mock.t1; Some Mock.t3 ].
Proof. vm_compute. reflexivity. Qed.

Example failing_second_trace_tail :
  let run := main (Mock.env Mock.failing_second) (init_world Mock.disk) in
  last (trace run.2)
  = Some (EvStreamError (Exception "APIConnectionError" "connection reset")) /\
  length (turns_of (trace run.2)) = 2%nat.
Proof. vm_compute. split; reflexivity. Qed.

Example missing_pdf_outcome :
  (main (Mock.env Mock.canned) (init_world ∅)).1
  = Raise (FileNotFoundError Mock.pdf).
Proof. vm_compute. reflexivity. Qed.

(* ===================================================================== *)
(** ** The run, case by case *)
(* ===================================================================== *)

Lemma load_attachments_ok pdf p tc w d1 d2 :
  fs w !! pdf = Some d1 ->
  fs w !! p = Some d2 ->
  load_attachments pdf p tc w
  = (Ok (BinaryContent_init d1 "application/pdf" None,
         BinaryContent_init d2 "text/plain" None,
         BinaryContent_init (utf8_encode tc) "text/plain" (Some "base64")),
     after w prologue_events).
Proof.
  intros Hpdf Hp. unfold load_attachments.
  rewrite (bind_ok _ _ _ _ _ (print_spec _ _)).
  rewrite (bind_ok _ _ _ _ _ (from_file_ok (after w _) pdf _ d1 Hpdf)).
  rewrite (bind_ok _ _ _ _ _ (print_spec _ _)).
  rewrite (bind_ok _ _ _ _ _ (from_file_ok (after (after w _) _) p _ d2 Hp)).
  rewrite (bind_ok _ _ _ _ _ (print_spec _ _)).
  rewrite (bind_ok _ _ _ _ _ (print_spec _ _)).
  unfold ret. rewrite !after_after. reflexivity.
Qed.

Lemma load_attachments_no_pdf pdf p tc w :
  fs w !! pdf = None ->
  load_attachments pdf p tc w
  = (Raise (FileNotFoundError pdf),
     after w [EvPrint ("Creating BinaryContent from files..." +:+ LF)]).
Proof.
  intros Hpdf. unfold load_attachments.
  rewrite (bind_ok _ _ _ _ _ (print_spec _ _)).
  by rewrite (bind_raise _ _ _ _ _ (from_file_missing (after w _) pdf _ Hpdf)).
Qed.

Lemma epilogue_exact w : epilogue w = (Ok tt, after w epilogue_events).
Proof.
  unfold epilogue.
  repeat rewrite (bind_ok _ _ _ _ _ (print_spec _ _)).
  rewrite print_spec, !after_after. reflexivity.
Qed.

Lemma with_text_file_lookup p f :
  with_text_file p f !! p = Some (utf8_encode create_sample_text_content).
Proof. apply lookup_insert_eq. Qed.

Lemma with_text_file_other p q f :
  q <> p -> with_text_file p f !! q = f !! q.
Proof.
  intros Hq. unfold with_text_file. by rewrite !lookup_insert_ne.
Qed.

Lemma delete_with_text_file p f : delete p (with_text_file p f) = delete p f.
Proof. unfold with_text_file. by rewrite !delete_insert_eq. Qed.

(** The outcome and the events of a conversation depend on the world only
    through its trace. *)
Lemma conversation_trace_only E agent inputs : forall th w w',
  trace w = trace w' ->
  (conversation E agent inputs th w).1 = (conversation E agent inputs th w').1 /\
  trace (conversation E agent inputs th w).2
  = trace (conversation E agent inputs th w').2.
Proof.
  induction inputs as [|u rest IH]; intros th w w' Htr; [done|].
  cbn [conversation].
  destruct (invoke_stream E agent (trace w ++ [EvPrint (user_line u)])
              (MessagesStr u) th) as [frags err] eqn:Hs.
  pose proof Hs as Hs'. rewrite Htr in Hs'.
  destruct err as [e|].
  - rewrite (bind_raise _ _ _ _ _ (turn_spec E _ _ _ _ _ _ Hs)).
    rewrite (bind_raise _ _ _ _ _ (turn_spec E _ _ _ _ _ _ Hs')).
    cbn. by rewrite Htr.
  - rewrite (bind_ok _ _ _ _ _ (turn_spec E _ _ _ _ _ _ Hs)).
    rewrite (bind_ok _ _ _ _ _ (turn_spec E _ _ _ _ _ _ Hs')).
    apply IH. cbn. by rewrite Htr.
Qed.

Section Cases.

Variable E : Environment.
Variable f : gmap string (list byte).
Variables c m p : string.
Hypothesis Hsetup : setup_resources E = Ok (c, m).
Hypothesis Htmp : NamedTemporaryFile E f = Ok p.

Let w1 : World := {| fs := with_text_file p f; trace := [] |}.

Lemma main_no_pdf :
  with_text_file p f !! pdf_file_path E = None ->
  main E (init_world f)
  = (Raise (FileNotFoundError (pdf_file_path E)),
     {| fs := delete p f;
        trace := [EvPrint ("Creating BinaryContent from files..." +:+ LF)] |}).
Proof.
  intros Hpdf. rewrite (main_unfold E f c m p Hsetup Htmp).
  fold (with_text_file p f). fold w1. unfold main_try.
  rewrite (bind_raise _ _ _ _ _
             (load_attachments_no_pdf _ p create_sample_text_content w1 Hpdf)).
  unfold cleaned, after. cbn. by rewrite delete_with_text_file.
Qed.

Lemma main_try_loaded d1 :
  with_text_file p f !! pdf_file_path E = Some d1 ->
  main_try E c m (pdf_file_path E) p create_sample_text_content w1
  = bind (lift (OpenAIResponsesAgent E m c INSTRUCTIONS "FileAnalyzer"))
         (fun agent => conversation E agent USER_INPUTS None)
         (after w1 prologue_events).
Proof.
  intros Hpdf. unfold main_try.
  by rewrite (bind_ok _ _ _ _ _
                (load_attachments_ok _ p create_sample_text_content w1 d1 _
                   Hpdf (with_text_file_lookup p f))).
Qed.

Lemma main_no_agent d1 e :
  with_text_file p f !! pdf_file_path E = Some d1 ->
  OpenAIResponsesAgent E m c INSTRUCTIONS "FileAnalyzer" = Raise e ->
  main E (init_world f)
  = (Raise e, {| fs := delete p f; trace := prologue_events |}).
Proof.
  intros Hpdf Hagent. rewrite (main_unfold E f c m p Hsetup Htmp).
  fold (with_text_file p f). fold w1. rewrite (main_try_loaded d1 Hpdf).
  rewrite Hagent. unfold lift.
  rewrite (bind_raise _ _ (after w1 prologue_events) e (after w1 prologue_events) eq_refl).
  unfold cleaned, after. cbn. by rewrite delete_with_text_file.
Qed.

Lemma main_conversation d1 agent :
  with_text_file p f !! pdf_file_path E = Some d1 ->
  OpenAIResponsesAgent E m c INSTRUCTIONS "FileAnalyzer" = Ok agent ->
  exists ts evs r,
    conv_run E agent prologue_events None ts evs r /\
    conversation E agent USER_INPUTS None (after w1 prologue_events)
      = (r, after w1 (prologue_events ++ evs)) /\
    (r = Ok tt -> map req_messages ts = map MessagesStr USER_INPUTS) /\
    main E (init_world f)
    = (r, {| fs := delete p f;
             trace := prologue_events ++ evs ++
                      match r with Ok _ => epilogue_events | Raise _ => [] end |}).
Proof.
  intros Hpdf Hagent.
  destruct (conversation_run E agent USER_INPUTS None (after w1 prologue_events))
    as (ts & evs & r & Hrun & Hconv & _ & Hall).
  exists ts, evs, r. rewrite after_after in Hrun.
  repeat split; [exact Hconv | exact Hrun | exact Hall |].
  rewrite (main_unfold E f c m p Hsetup Htmp).
  fold (with_text_file p f). fold w1. rewrite (main_try_loaded d1 Hpdf).
  rewrite Hagent. unfold lift.
  rewrite (bind_ok _ _ (after w1 prologue_events) agent (after w1 prologue_events) eq_refl).
  rewrite Hrun. destruct r as [[]|e].
  - rewrite epilogue_exact. unfold cleaned, after, w1. cbn [fs trace app].
    by rewrite delete_with_text_file, <- app_assoc.
  - unfold cleaned, after, w1. cbn [fs trace app].
    by rewrite delete_with_text_file, app_nil_r.
Qed.

End Cases.

Lemma with_text_file_is_Some p q f :
  is_Some (f !! q) -> is_Some (with_text_file p f !! q).
Proof.
  intros Hq. destruct (decide (q = p)) as [->|Hne].
  - rewrite with_text_file_lookup. eauto.
  - by rewrite with_text_file_other.
Qed.

Lemma main_setup_fails E f e :
  setup_resources E = Raise e -> main E (init_world f) = (Raise e, init_world f).
Proof.
  intros Hsetup. unfold main, lift.
  by rewrite (bind_raise _ _ (init_world f) e (init_world f)) by (by rewrite Hsetup).
Qed.

Lemma main_tmp_fails E f cm e :
  setup_resources E = Ok cm ->
  NamedTemporaryFile E f = Raise e ->
  main E (init_world f) = (Raise e, init_world f).
Proof.
  intros Hsetup Htmp. unfold main, lift.
  rewrite (bind_ok _ _ (init_world f) cm (init_world f)) by (by rewrite Hsetup).
  destruct cm as [c m].
  assert (create_text_file E (init_world f) = (Raise e, init_world f)) as Hc.
  { unfold create_text_file, bind. cbn. by rewrite Htmp. }
  by rewrite (bind_raise _ _ _ _ _ Hc).
Qed.

Lemma main_cases E f : main_case E f.
Proof.
  destruct (setup_resources E) as [[c m]|e] eqn:Hsetup; cycle 1.
  { eapply case_before_try; [by left | by apply main_setup_fails]. }
  destruct (NamedTemporaryFile E f) as [p|e] eqn:Htmp; cycle 1.
  { eapply case_before_try; [right; eauto | by eapply main_tmp_fails]. }
  destruct (with_text_file p f !! pdf_file_path E) as [d1|] eqn:Hpdf; cycle 1.
  { eapply case_no_pdf; eauto using main_no_pdf. }
  destruct (OpenAIResponsesAgent E m c INSTRUCTIONS "FileAnalyzer")
    as [agent|e] eqn:Hagent; cycle 1.
  { eapply case_no_agent; eauto using main_no_agent. }
  destruct (main_conversation E f c m p Hsetup Htmp d1 agent Hpdf Hagent)
    as (ts & evs & r & Hconv & _ & Hall & Hmain).
  by eapply case_conversation.
Qed.

Lemma prologue_prints : Forall is_print prologue_events.
Proof. repeat constructor. Qed.

Lemma epilogue_prints : Forall is_print epilogue_events.
Proof. repeat constructor. Qed.

Lemma tail_prints (r : result unit) :
  Forall is_print match r with Ok _ => epilogue_events | Raise _ => [] end.
Proof. destruct r; [apply epilogue_prints | constructor]. Qed.

Lemma no_submit_split l pre m h post :
  Forall (fun ev => ~ is_submit ev) l -> l <> pre ++ EvSubmit m h :: post.
Proof.
  intros Hl ->. apply Forall_app in Hl as [_ H].
  apply Forall_cons in H as [H _]. by apply H.
Qed.

Lemma conv_run_raise_last E agent tr0 th ts evs e :
  conv_run E agent tr0 th ts evs (Raise e) ->
  last evs = Some (EvStreamError e).
Proof.
  remember (Raise e) as r eqn:Hr.
  induction 1 as [tr0 th|tr0 th u frags e0 Hs|tr0 th u frags ts evs r Hs Hrun IH].
  - discriminate.
  - simplify_eq. unfold turn_events.
    change (EvPrint (user_line u) :: EvSubmit (MessagesStr u) th
              :: consume_events frags true ++ stream_end (Some e))
      with (([EvPrint (user_line u); EvSubmit (MessagesStr u) th]
               ++ consume_events frags true) ++ [EvStreamError e]).
    apply last_snoc.
  - specialize (IH Hr). rewrite last_app, IH. done.
Qed.

Lemma stdout_conv_ok E agent tr0 th ts evs :
  conv_run E agent tr0 th ts evs (Ok tt) ->
  stdout evs = concat_str (map turn_output ts).
Proof.
  remember (Ok tt) as r eqn:Hr.
  induction 1 as [tr0 th|tr0 th u frags e0 Hs|tr0 th u frags ts evs r Hs Hrun IH].
  - reflexivity.
  - discriminate.
  - specialize (IH Hr). rewrite stdout_app, IH.
    change (concat_str (map turn_output
              ({| req_messages := MessagesStr u; req_thread := th;
                  fragments := frags |} :: ts)))
      with (turn_output {| req_messages := MessagesStr u; req_thread := th;
                           fragments := frags |}
            +:+ concat_str (map turn_output ts)).
    f_equal. unfold turn_events, turn_output, turn_text. cbn [req_messages fragments].
    change (EvPrint (user_line u) :: EvSubmit (MessagesStr u) th
              :: consume_events frags true ++ stream_end None)
      with ([EvPrint (user_line u); EvSubmit (MessagesStr u) th]
              ++ consume_events frags true ++ stream_end None).
    rewrite !stdout_app, stdout_consume.
    change (stdout [EvPrint (user_line u); EvSubmit (MessagesStr u) th])
      with (user_line u +:+ "").
    change (stdout (stream_end None)) with (LF +:+ "").
    rewrite !str_app_assoc. cbn [String.append].
    assert (forall s, s +:+ "" = s) as Hnil.
    { induction s as [|x s IHs]; [done|].
      change (String x (s +:+ "") = String x s). by f_equal. }
    by rewrite ?Hnil.
Qed.

(* ===================================================================== *)
(** ** Further properties of the script *)
(* ===================================================================== *)

(** X1. The only trace [main] leaves in the file system is the removal of
    the temporary path: when the temporary file was created, the file
    system afterwards is the initial one without that path; otherwise it is
    the initial one.  Every other file, the PDF among them, is as it was. *)
Theorem main_fs_footprint (E : Environment) (f : gmap string (list byte)) :
  fs (main E (init_world f)).2
  = match setup_resources E, NamedTemporaryFile E f with
    | Ok _, Ok p => delete p f
    | _, _ => f
    end /\
  (forall q, NamedTemporaryFile E f <> Ok q ->
     fs (main E (init_world f)).2 !! q = f !! q).
Proof.
  assert (fs (main E (init_world f)).2
          = match setup_resources E, NamedTemporaryFile E f with
            | Ok _, Ok p => delete p f
            | _, _ => f
            end) as Hfs.
  { destruct (main_cases E f)
      as [e [Hs|[[cm Hs] Ht]] Hm|cm p Hs Ht _ Hm|c m p e Hs Ht _ Hm
         |c m p agent ts evs r Hs Ht _ _ _ Hm];
      rewrite Hm, Hs; try rewrite Ht; done. }
  split; [exact Hfs|].
  intros q Hq. rewrite Hfs.
  destruct (setup_resources E); [|done].
  destruct (NamedTemporaryFile E f) as [p|]; [|done].
  apply lookup_delete_ne. congruence.
Qed.

(** X2. A failure before the [try] block, of [setup_resources] or of the
    creation of the temporary file, leaves [main] at once: nothing is
    printed, nothing is sent and the file system is untouched. *)
Theorem failure_before_try (E : Environment) (f : gmap string (list byte))
    (e : exn) :
  setup_resources E = Raise e \/
  ((exists cm, setup_resources E = Ok cm) /\ NamedTemporaryFile E f = Raise e) ->
  main E (init_world f) = (Raise e, init_world f).
Proof.
  intros [Hs|[[cm Hs] Ht]].
  - by apply main_setup_fails.
  - by eapply main_tmp_fails.
Qed.

Lemma failure_before_try_witness :
  main MockFailures.env_no_setup (init_world Mock.disk)
  = (Raise (Exception "AgentInitializationException" "no api key"),
     init_world Mock.disk).
Proof.
  apply (failure_before_try MockFailures.env_no_setup Mock.disk). by left.
Defined.

(** X3. When the PDF is missing, [main] raises [FileNotFoundError] for its
    path after the first progress line: the text file is not read, no
    agent is created, no request is sent, and the temporary file is
    removed. *)
Theorem missing_pdf_run (E : Environment) (f : gmap string (list byte))
    (cm : string * string) (p : string) :
  setup_resources E = Ok cm ->
  NamedTemporaryFile E f = Ok p ->
  p <> pdf_file_path E ->
  f !! pdf_file_path E = None ->
  main E (init_world f)
  = (Raise (FileNotFoundError (pdf_file_path E)),
     {| fs := delete p f;
        trace := [EvPrint ("Creating BinaryContent from files..." +:+ LF)] |}).
Proof.
  intros Hs Ht Hne Hpdf. destruct cm as [c m].
  apply (main_no_pdf E f c m p Hs Ht).
  rewrite with_text_file_other by done. exact Hpdf.
Qed.

Lemma missing_pdf_run_witness :
  main (Mock.env Mock.canned) (init_world ∅)
  = (Raise (FileNotFoundError Mock.pdf),
     {| fs := delete Mock.tmp ∅;
        trace := [EvPrint ("Creating BinaryContent from files..." +:+ LF)] |}).
Proof.
  apply (missing_pdf_run (Mock.env Mock.canned) ∅ ("client", "gpt-4o") Mock.tmp);
    [reflexivity | reflexivity | discriminate | reflexivity].
Defined.

(** X4. When the constructor of the agent raises, [main] raises the same
    exception: the four progress lines have been printed, no request has
    been sent, and the temporary file is removed. *)
Theorem agent_failure_run (E : Environment) (f : gmap string (list byte))
    (c m p : string) (e : exn) :
  setup_resources E = Ok (c, m) ->
  NamedTemporaryFile E f = Ok p ->
  is_Some (f !! pdf_file_path E) ->
  OpenAIResponsesAgent E m c INSTRUCTIONS "FileAnalyzer" = Raise e ->
  main E (init_world f)
  = (Raise e, {| fs := delete p f; trace := prologue_events |}).
Proof.
  intros Hs Ht Hpdf Hagent.
  destruct (with_text_file_is_Some p _ f Hpdf) as [d1 Hd1].
  by apply (main_no_agent E f c m p Hs Ht d1 e).
Qed.

Lemma agent_failure_run_witness :
  main MockFailures.env_no_agent (init_world Mock.disk)
  = (Raise (Exception "AgentInitializationException" "bad model"),
     {| fs := delete Mock.tmp Mock.disk; trace := prologue_events |}).
Proof.
  apply (agent_failure_run MockFailures.env_no_agent Mock.disk
           "client" "gpt-4o" Mock.tmp); [reflexivity | reflexivity | | reflexivity].
  exists (utf8_encode "%PDF-1.4"). reflexivity.
Defined.

(** X5. Every request of a run is answered by the one agent that the
    constructor returned for the model and the client of
    [setup_resources], the fixed instructions and the name [FileAnalyzer];
    what follows the request in the trace is that agent's stream. *)
Theorem requests_use_constructed_agent (E : Environment)
    (f : gmap string (list byte)) (c m : string)
    (pre post : list event) (msg : Messages) (th : option AgentThread) :
  setup_resources E = Ok (c, m) ->
  trace (main E (init_world f)).2 = pre ++ EvSubmit msg th :: post ->
  exists agent post',
    OpenAIResponsesAgent E m c INSTRUCTIONS "FileAnalyzer" = Ok agent /\
    post = consume_events (invoke_stream E agent pre msg th).1 true
           ++ stream_end (invoke_stream E agent pre msg th).2 ++ post'.
Proof.
  intros Hsetup Htr.
  destruct (main_cases E f)
    as [e _ Hm|cm p _ _ _ Hm|c' m' p e _ _ _ Hm
       |c' m' p agent ts evs r Hs Ht Hagent Hconv _ Hm];
    rewrite Hm in Htr; cbn [snd trace] in Htr.
  - by destruct pre.
  - by destruct pre as [|? [|? ?]].
  - exfalso. eapply no_submit_split; [|exact Htr].
    apply prints_no_submit, prologue_prints.
  - rewrite Hsetup in Hs. injection Hs as <- <-.
    apply split_at_submit in Htr as (p1 & -> & Htr);
      [|apply prints_no_submit, prologue_prints].
    destruct (served_conv _ _ _ _ _ _ _ _ Hconv
                (prints_no_submit _ (tail_prints r)) _ _ _ _ Htr) as (rest & Hrest).
    exists agent, rest. split; [done|].
    by destruct (invoke_stream E agent (prologue_events ++ p1) msg th).
Qed.

Lemma requests_use_constructed_agent_witness :
  exists agent post',
    OpenAIResponsesAgent (Mock.env Mock.canned) "gpt-4o" "client"
      INSTRUCTIONS "FileAnalyzer" = Ok agent /\
    skipn 6 (trace (main (Mock.env Mock.canned) (init_world Mock.disk)).2)
    = consume_events
        (invoke_stream (Mock.env Mock.canned) agent
           (firstn 5 (trace (main (Mock.env Mock.canned) (init_world Mock.disk)).2))
           (MessagesStr "What type of files did I upload?") None).1 true
      ++ stream_end
           (invoke_stream (Mock.env Mock.canned) agent
              (firstn 5 (trace (main (Mock.env Mock.canned) (init_world Mock.disk)).2))
              (MessagesStr "What type of files did I upload?") None).2
      ++ post'.
Proof.
  apply (requests_use_constructed_agent (Mock.env Mock.canned) Mock.disk
           "client" "gpt-4o"); [reflexivity|].
  vm_compute. reflexivity.
Defined.

Lemma suffix_last {A} (l k : list A) :
  l `suffix_of` k -> l <> [] -> last k = last l.
Proof.
  intros [pre ->] Hne. rewrite last_app.
  destruct (last l) eqn:Hl; [done|]. by apply last_None in Hl.
Qed.

(** X6. The console output of a run that returns normally is the four
    progress lines, then for each of the turns of the trace the question,
    the name of its first fragment (nothing when the answer streamed no
    fragment), the contents of its fragments and a new line, then the
    closing lines. *)
Theorem transcript_of_complete_run (E : Environment)
    (f : gmap string (list byte)) :
  (main E (init_world f)).1 = Ok tt ->
  stdout (trace (main E (init_world f)).2)
  = stdout prologue_events
    +:+ concat_str (map turn_output (turns_of (trace (main E (init_world f)).2)))
    +:+ stdout epilogue_events.
Proof.
  intros Hok.
  destruct (main_cases E f)
    as [e _ Hm|cm p _ _ _ Hm|c m p e _ _ _ Hm
       |c m p agent ts evs r _ _ _ Hconv _ Hm];
    rewrite Hm in Hok |- *; cbn [fst snd trace] in Hok |- *; try discriminate.
  subst r.
  unfold turns_of.
  rewrite (split_turns_prints _ _ prologue_prints).
  rewrite (split_turns_conv _ _ _ _ _ _ _ _ Hconv epilogue_prints). cbn [snd].
  rewrite !stdout_app.
  by rewrite (stdout_conv_ok _ _ _ _ _ _ Hconv).
Qed.

Lemma transcript_of_complete_run_witness :
  stdout (trace (main (Mock.env Mock.silent_second) (init_world Mock.disk)).2)
  = stdout prologue_events
    +:+ concat_str
          (map turn_output
             (turns_of (trace (main (Mock.env Mock.silent_second)
                                 (init_world Mock.disk)).2)))
    +:+ stdout epilogue_events.
Proof.
  apply (transcript_of_complete_run (Mock.env Mock.silent_second) Mock.disk).
  reflexivity.
Defined.

(** X7. The closing lines end the trace exactly when [main] returns
    normally: a run that raises never prints them last. *)
Theorem closing_lines_iff_normal_return (E : Environment)
    (f : gmap string (list byte)) :
  (main E (init_world f)).1 = Ok tt <->
  epilogue_events `suffix_of` trace (main E (init_world f)).2.
Proof.
  assert (last epilogue_events
          = Some (EvPrint ("- Text files (text/plain)" +:+ LF))) as Hlast
    by reflexivity.
  assert (epilogue_events <> []) as Hne by discriminate.
  destruct (main_cases E f)
    as [e _ Hm|cm p _ _ _ Hm|c m p e _ _ _ Hm
       |c m p agent ts evs r _ _ _ Hconv _ Hm];
    rewrite Hm; cbn [fst snd trace].
  - split; [discriminate|]. intros Hs.
    apply suffix_length in Hs. cbn in Hs. lia.
  - split; [discriminate|]. intros Hs.
    apply suffix_length in Hs. cbn in Hs. lia.
  - split; [discriminate|]. intros Hs.
    apply suffix_length in Hs. cbn in Hs. lia.
  - destruct r as [[]|e].
    + split; [|done]. intros _. exists (prologue_events ++ evs).
      by rewrite <- app_assoc.
    + split; [discriminate|]. intros Hs. exfalso.
      apply suffix_last in Hs; [|done].
      rewrite app_nil_r, last_app in Hs.
      rewrite (conv_run_raise_last _ _ _ _ _ _ _ Hconv), Hlast in Hs.
      discriminate.
Qed.



(** X9. What is printed and sent does not depend on the contents of the
    files: two runs in the same environment, on file systems that both
    hold a PDF at the expected path and get the same temporary name, have
    the same outcome and the same trace. *)
Theorem run_independent_of_file_contents (E : Environment)
    (f f' : gmap string (list byte)) (p : string) :
  NamedTemporaryFile E f = Ok p ->
  NamedTemporaryFile E f' = Ok p ->
  is_Some (f !! pdf_file_path E) ->
  is_Some (f' !! pdf_file_path E) ->
  (main E (init_world f)).1 = (main E (init_world f')).1 /\
  trace (main E (init_world f)).2 = trace (main E (init_world f')).2.
Proof.
  intros Ht Ht' Hpdf Hpdf'.
  destruct (setup_resources E) as [[c m]|e] eqn:Hs; cycle 1.
  { by rewrite !(main_setup_fails E _ e Hs). }
  destruct (with_text_file_is_Some p _ f Hpdf) as [d1 Hd1].
  destruct (with_text_file_is_Some p _ f' Hpdf') as [d1' Hd1'].
  destruct (OpenAIResponsesAgent E m c INSTRUCTIONS "FileAnalyzer")
    as [agent|e] eqn:Hagent; cycle 1.
  { rewrite (main_no_agent E f c m p Hs Ht d1 e Hd1 Hagent).
    by rewrite (main_no_agent E f' c m p Hs Ht' d1' e Hd1' Hagent). }
  destruct (main_conversation E f c m p Hs Ht d1 agent Hd1 Hagent)
    as (ts & evs & r & _ & Hrun & _ & Hm).
  destruct (main_conversation E f' c m p Hs Ht' d1' agent Hd1' Hagent)
    as (ts' & evs' & r' & _ & Hrun' & _ & Hm').
  destruct (conversation_trace_only E agent USER_INPUTS None
              (after {| fs := with_text_file p f; trace := [] |} prologue_events)
              (after {| fs := with_text_file p f'; trace := [] |} prologue_events)
              eq_refl) as [Hr Htr].
  rewrite Hrun, Hrun' in Hr, Htr. cbn in Hr, Htr. simplify_eq.
  by rewrite Hm, Hm'.
Qed.

Lemma run_independent_of_file_contents_witness :
  (main (Mock.env Mock.canned) (init_world Mock.disk)).1
  = (main (Mock.env Mock.canned) (init_world MockFailures.other_disk)).1 /\
  trace (main (Mock.env Mock.canned) (init_world Mock.disk)).2
  = trace (main (Mock.env Mock.canned) (init_world MockFailures.other_disk)).2.
Proof.
  apply (run_independent_of_file_contents (Mock.env Mock.canned)
           Mock.disk MockFailures.other_disk Mock.tmp);
    [reflexivity | reflexivity | |].
  - exists (utf8_encode "%PDF-1.4"). reflexivity.
  - exists (utf8_encode "%PDF-1.7 other"). reflexivity.
Defined.

(* ===================================================================== *)
(** ** The conversation against the answers of the service *)
(* ===================================================================== *)

Lemma str_app_nil_r (s : string) : s +:+ "" = s.
Proof.
  induction s as [|x s IH]; [done|].
  change (String x (s +:+ "") = String x s). by f_equal.
Qed.

(** The loop is the service's answers, turn by turn, and nothing else. *)
Lemma conversation_answers E agent inputs : forall th w,
  conversation E agent inputs th w
  = (answers_result (service_answers E agent (trace w) th inputs),
     after w (flat_map answer_events (service_answers E agent (trace w) th inputs))).
Proof.
  induction inputs as [|u rest IH]; intros th w.
  - cbn. unfold ret. by rewrite after_nil.
  - cbn [conversation service_answers].
    destruct (invoke_stream E agent (trace w ++ [EvPrint (user_line u)])
                (MessagesStr u) th) as [frags [e|]] eqn:Hs.
    + rewrite (bind_raise _ _ _ _ _ (turn_spec E _ _ _ _ _ _ Hs)).
      cbn. unfold answer_events. cbn. by rewrite app_nil_r.
    + rewrite (bind_ok _ _ _ _ _ (turn_spec E _ _ _ _ _ _ Hs)).
      rewrite IH, after_after. reflexivity.
Qed.

Lemma service_answers_questions E agent inputs : forall tr0 th,
  map question (service_answers E agent tr0 th inputs) `prefix_of` inputs.
Proof.
  induction inputs as [|u rest IH]; intros tr0 th; [done|].
  cbn [service_answers].
  destruct (invoke_stream E agent _ _ th) as [frags [e|]]; cbn.
  - apply prefix_cons, prefix_nil.
  - apply prefix_cons, IH.
Qed.

(** An answer that raises is the last one, and its exception is the
    outcome. *)
Lemma service_answers_stop E agent inputs : forall tr0 th i a e,
  service_answers E agent tr0 th inputs !! i = Some a ->
  ans_error a = Some e ->
  S i = length (service_answers E agent tr0 th inputs) /\
  answers_result (service_answers E agent tr0 th inputs) = Raise e.
Proof.
  induction inputs as [|u rest IH]; intros tr0 th i a e Hi He; [done|].
  cbn [service_answers] in *.
  destruct (invoke_stream E agent _ _ th) as [frags [e0|]].
  - destruct i as [|i]; [|done]. by simplify_eq/=.
  - destruct i as [|i]; [by simplify_eq/=|].
    cbn in Hi. destruct (IH _ _ _ _ _ Hi He) as [Hlen Hres].
    cbn. by rewrite Hlen, Hres.
Qed.

Lemma service_answers_complete E agent inputs : forall tr0 th,
  Forall (fun a => ans_error a = None) (service_answers E agent tr0 th inputs) ->
  map question (service_answers E agent tr0 th inputs) = inputs /\
  answers_result (service_answers E agent tr0 th inputs) = Ok tt.
Proof.
  induction inputs as [|u rest IH]; intros tr0 th Hall; [done|].
  cbn [service_answers] in *.
  destruct (invoke_stream E agent _ _ th) as [frags [e0|]].
  - apply Forall_cons in Hall as [H _]. discriminate.
  - apply Forall_cons in Hall as [_ Hall].
    destruct (IH _ _ Hall) as [Hq Hres]. cbn. by rewrite Hq, Hres.
Qed.

(** Against a service whose answer to a question does not depend on the
    moment it is asked. *)
Lemma service_answers_fixed_fail E agent (answer : string -> Stream)
    (asked : list string) u rest e :
  (forall v tr' h, invoke_stream E agent tr' (MessagesStr v) h = answer v) ->
  Forall (fun v => (answer v).2 = None) asked ->
  (answer u).2 = Some e ->
  forall tr0 th,
    map question (service_answers E agent tr0 th (asked ++ u :: rest))
    = asked ++ [u] /\
    answers_result (service_answers E agent tr0 th (asked ++ u :: rest)) = Raise e.
Proof.
  intros Hfixed Hasked Hu.
  induction Hasked as [|v asked Hv _ IH]; intros tr0 th.
  - cbn [app service_answers]. rewrite Hfixed.
    destruct (answer u) as [frags err]. cbn in Hu. by subst err.
  - cbn [app service_answers]. rewrite Hfixed.
    destruct (answer v) as [frags err]. cbn in Hv. subst err.
    destruct (IH (tr0 ++ turn_events v th frags None) (thread_after th frags))
      as [Hq Hres].
    cbn. by rewrite Hq, Hres.
Qed.

(** *** The trace of answers, read back *)

Lemma split_turns_answers answers post :
  Forall is_print post ->
  split_turns (flat_map answer_events answers ++ post)
  = ([], map turn_of_answer answers).
Proof.
  intros Hpost. induction answers as [|a answers IH].
  - by apply split_turns_only_prints.
  - cbn [flat_map map]. rewrite <- app_assoc.
    unfold answer_events at 1. by apply split_turns_turn.
Qed.

Lemma received_prints l : Forall is_print l -> received l = [].
Proof.
  induction 1 as [|ev l Hev _ IH]; [done|]. by destruct ev.
Qed.

Lemma received_consume frags first_chunk :
  received (consume_events frags first_chunk) = frags.
Proof.
  revert first_chunk. induction frags as [|r frags IH]; intros first_chunk; [done|].
  cbn [consume_events]. destruct first_chunk; cbn; by rewrite IH.
Qed.

Lemma received_answers answers :
  received (flat_map answer_events answers) = flat_map ans_fragments answers.
Proof.
  induction answers as [|a answers IH]; [done|].
  cbn [flat_map]. rewrite received_app, IH. f_equal.
  unfold answer_events, turn_events.
  change (received (consume_events (ans_fragments a) true ++ stream_end (ans_error a))
          = ans_fragments a).
  rewrite received_app, received_consume.
  destruct (ans_error a); cbn; by rewrite app_nil_r.
Qed.

Lemma stdout_answer a : stdout (answer_events a) = answer_output a.
Proof.
  unfold answer_events, turn_events, answer_output.
  change (EvPrint (user_line (question a))
            :: EvSubmit (MessagesStr (question a)) (handle a)
            :: consume_events (ans_fragments a) true ++ stream_end (ans_error a))
    with ([EvPrint (user_line (question a));
           EvSubmit (MessagesStr (question a)) (handle a)]
            ++ consume_events (ans_fragments a) true ++ stream_end (ans_error a)).
  rewrite !stdout_app, stdout_consume.
  change (stdout [EvPrint (user_line (question a));
                  EvSubmit (MessagesStr (question a)) (handle a)])
    with (user_line (question a) +:+ "").
  rewrite str_app_nil_r. fold (name_prefix (ans_fragments a)).
  rewrite !str_app_assoc. by destruct (ans_error a).
Qed.

Lemma stdout_answers answers :
  stdout (flat_map answer_events answers) = concat_str (map answer_output answers).
Proof.
  induction answers as [|a answers IH]; [done|].
  cbn [flat_map map]. rewrite stdout_app, IH, stdout_answer. reflexivity.
Qed.

Lemma answer_output_streamed a :
  ans_error a = None ->
  answer_output a = streamed_output (question a) (ans_fragments a).
Proof. intros H. unfold answer_output, streamed_output. by rewrite H. Qed.

(** *** The run against the answers *)

Lemma main_answers E f c m p agent :
  setup_resources E = Ok (c, m) ->
  NamedTemporaryFile E f = Ok p ->
  is_Some (f !! pdf_file_path E) ->
  OpenAIResponsesAgent E m c INSTRUCTIONS "FileAnalyzer" = Ok agent ->
  main E (init_world f)
  = (answers_result (service_answers E agent prologue_events None USER_INPUTS),
     {| fs := delete p f;
        trace :=
          prologue_events
          ++ flat_map answer_events
               (service_answers E agent prologue_events None USER_INPUTS)
          ++ match answers_result
                     (service_answers E agent prologue_events None USER_INPUTS) with
             | Ok _ => epilogue_events
             | Raise _ => []
             end |}).
Proof.
  intros Hs Ht Hpdf Hagent.
  destruct (with_text_file_is_Some p _ f Hpdf) as [d1 Hd1].
  rewrite (main_unfold E f c m p Hs Ht).
  fold (with_text_file p f).
  rewrite (main_try_loaded E f c m p d1 Hd1).
  rewrite Hagent. unfold lift.
  rewrite (bind_ok _ _ _ agent _ eq_refl).
  rewrite conversation_answers.
  change (trace (after {| fs := with_text_file p f; trace := [] |} prologue_events))
    with prologue_events.
  destruct (answers_result _) as [[]|e].
  - rewrite epilogue_exact. unfold cleaned, after. cbn [fs trace app].
    by rewrite delete_with_text_file, <- app_assoc.
  - unfold cleaned, after. cbn [fs trace app].
    by rewrite delete_with_text_file, app_nil_r.
Qed.

Lemma service_answers_canned E agent (answer : string -> list Response) inputs :
  (forall u tr' h, invoke_stream E agent tr' (MessagesStr u) h = (answer u, None)) ->
  forall tr0 th,
    map question (service_answers E agent tr0 th inputs) = inputs /\
    answers_result (service_answers E agent tr0 th inputs) = Ok tt /\
    flat_map ans_fragments (service_answers E agent tr0 th inputs)
    = flat_map answer inputs /\
    map answer_output (service_answers E agent tr0 th inputs)
    = map (fun u => streamed_output u (answer u)) inputs.
Proof.
  intros Hcanned. induction inputs as [|u rest IH]; intros tr0 th; [done|].
  cbn [service_answers]. rewrite Hcanned.
  destruct (IH (tr0 ++ turn_events u th (answer u) None)
              (thread_after th (answer u))) as (Hq & Hres & Hfr & Hout).
  cbn [map flat_map answers_result question ans_fragments ans_error].
  rewrite Hq, Hres, Hfr, Hout. done.
Qed.

(** C4. In every run, against any service: each request is followed in the
    trace by the whole stream the service answers with, every fragment
    printed when it is received and before the next one is taken; the
    contents of the fragments received are, in arrival order, among the
    pieces printed; the console output holds the text of each turn, its
    fragments' contents concatenated in arrival order, turn after turn.
    Once the files are read and the agent is constructed, the questions
    are put to that agent one after the other, the fragments received are
    exactly the fragments of its streams, and the console output is the
    progress lines, then for each stream the question, the name prefix and
    the contents of all its fragments in the order of the stream, then the
    closing lines when no stream raised.  In particular, when the service
    answers each question [u] with a fixed stream [answer u], [main]
    returns normally and the output holds, for the four questions in
    order, every fragment of [answer u], concatenated. *)
Theorem fragments_printed_in_order (E : Environment)
    (f : gmap string (list byte)) :
  let run := main E (init_world f) in
  let tr := trace run.2 in
  served E tr /\
  echoed tr /\
  map content (received tr) `sublist_of` printed tr /\
  contains_in_order (map turn_text (turns_of tr)) (stdout tr) /\
  (forall c m p agent,
     setup_resources E = Ok (c, m) ->
     NamedTemporaryFile E f = Ok p ->
     is_Some (f !! pdf_file_path E) ->
     OpenAIResponsesAgent E m c INSTRUCTIONS "FileAnalyzer" = Ok agent ->
     let answers := service_answers E agent prologue_events None USER_INPUTS in
     answers <> [] /\
     turns_of tr = map turn_of_answer answers /\
     received tr = flat_map ans_fragments answers /\
     stdout tr
     = stdout prologue_events
       +:+ concat_str (map answer_output answers)
       +:+ match answers_result answers with
           | Ok _ => stdout epilogue_events
           | Raise _ => ""
           end) /\
  (forall c m p agent (answer : string -> list Response),
     setup_resources E = Ok (c, m) ->
     NamedTemporaryFile E f = Ok p ->
     is_Some (f !! pdf_file_path E) ->
     OpenAIResponsesAgent E m c INSTRUCTIONS "FileAnalyzer" = Ok agent ->
     (forall u tr' h,
        invoke_stream E agent tr' (MessagesStr u) h = (answer u, None)) ->
     run.1 = Ok tt /\
     map req_messages (turns_of tr) = map MessagesStr USER_INPUTS /\
     received tr = flat_map answer USER_INPUTS /\
     stdout tr
     = stdout prologue_events
       +:+ concat_str (map (fun u => streamed_output u (answer u)) USER_INPUTS)
       +:+ stdout epilogue_events).
Proof.
  intros run tr.
  assert (forall c m p agent,
    setup_resources E = Ok (c, m) ->
    NamedTemporaryFile E f = Ok p ->
    is_Some (f !! pdf_file_path E) ->
    OpenAIResponsesAgent E m c INSTRUCTIONS "FileAnalyzer" = Ok agent ->
    turns_of tr
    = map turn_of_answer (service_answers E agent prologue_events None USER_INPUTS) /\
    received tr
    = flat_map ans_fragments (service_answers E agent prologue_events None USER_INPUTS) /\
    stdout tr
    = stdout prologue_events
      +:+ concat_str (map answer_output
                        (service_answers E agent prologue_events None USER_INPUTS))
      +:+ match answers_result
                  (service_answers E agent prologue_events None USER_INPUTS) with
          | Ok _ => stdout epilogue_events
          | Raise _ => ""
          end) as Hrun.
  { intros c m p agent Hs Ht Hpdf Hagent. subst tr run.
    rewrite (main_answers E f c m p agent Hs Ht Hpdf Hagent). cbn [snd trace].
    set (answers := service_answers E agent prologue_events None USER_INPUTS).
    assert (Forall is_print match answers_result answers with
                            | Ok _ => epilogue_events
                            | Raise _ => []
                            end) as Htail by apply tail_prints.
    repeat split.
    - unfold turns_of. rewrite (split_turns_prints _ _ prologue_prints).
      by rewrite (split_turns_answers _ _ Htail).
    - rewrite !received_app, received_answers.
      rewrite (received_prints _ prologue_prints), (received_prints _ Htail).
      by rewrite app_nil_r.
    - rewrite !stdout_app, stdout_answers.
      by destruct (answers_result answers). }
  split; [apply main_served|].
  destruct (main_turns E f)
    as (pre & agent0 & evs & rc & post & Htr & Hpre & Hpost & Hconv & _).
  fold run in Htr. fold tr in Htr, Hconv.
  split.
  { rewrite Htr. apply echoed_prints; [done|].
    eapply echoed_conv; [done|]. by apply echoed_only_prints. }
  split.
  { fold (echo_sublist tr). rewrite Htr.
    apply echo_sublist_app; [by apply echo_sublist_prints|].
    apply echo_sublist_app; [by eapply echo_sublist_conv|].
    by apply echo_sublist_prints. }
  split.
  { rewrite Htr at 2. rewrite stdout_app.
    apply contains_in_order_weaken. by eapply contains_in_order_conv. }
  split.
  - intros c m p agent Hs Ht Hpdf Hagent answers.
    split; [|by apply (Hrun c m p agent)].
    subst answers. cbn [USER_INPUTS service_answers].
    by destruct (invoke_stream E agent _ _ None).
  - intros c m p agent answer Hs Ht Hpdf Hagent Hcanned.
    destruct (Hrun c m p agent Hs Ht Hpdf Hagent) as (Hturns & Hrecv & Hout).
    destruct (service_answers_canned E agent answer USER_INPUTS Hcanned
                prologue_events None) as (Hq & Hres & Hfr & Hans).
    rewrite Hres in Hout. rewrite Hans in Hout. rewrite Hfr in Hrecv.
    split.
    { subst run. rewrite (main_answers E f c m p agent Hs Ht Hpdf Hagent).
      cbn [fst]. exact Hres. }
    split; [|by split].
    rewrite Hturns.
    transitivity (map MessagesStr
                    (map question
                       (service_answers E agent prologue_events None USER_INPUTS)));
      [by rewrite <- !list_fmap_compose | by rewrite Hq].
Qed.

Lemma fragments_printed_in_order_witness :
  let E := MockByQuestion.env (fun u => (MockByQuestion.echo u, None)) in
  let run := main E (init_world Mock.disk) in
  run.1 = Ok tt /\
  map req_messages (turns_of (trace run.2)) = map MessagesStr USER_INPUTS /\
  received (trace run.2) = flat_map MockByQuestion.echo USER_INPUTS /\
  stdout (trace run.2)
  = stdout prologue_events
    +:+ concat_str (map (fun u => streamed_output u (MockByQuestion.echo u))
                      USER_INPUTS)
    +:+ stdout epilogue_events.
Proof.
  intros E run.
  destruct (fragments_printed_in_order E Mock.disk) as (_ & _ & _ & _ & _ & H).
  apply (H "client" "gpt-4o" Mock.tmp MockByQuestion.agent MockByQuestion.echo);
    [reflexivity | reflexivity | | reflexivity | reflexivity].
  exists (utf8_encode "%PDF-1.4"). reflexivity.
Defined.

(** X11. The conversation loop over any list of questions is exactly the
    service's answers, turn by turn: it puts the questions in order, one
    request each, every request carrying a plain question, and ends with
    the outcome of the answers.  A stream that raises is the last answer:
    the loop stops there with that exception and the questions after it
    are never sent; when no stream raises every question is sent and the
    loop ends normally; over the empty list nothing is sent or printed.
    In particular, against a service with a fixed stream per question, if
    the questions [asked] are answered normally and the next one, [u],
    raises [e], the result is [Raise e] and the requests are exactly
    [asked] followed by [u]. *)
Theorem conversation_requests (E : Environment) (agent : Agent)
    (inputs : list string) (th : option AgentThread) (w : World) :
  let answers := service_answers E agent (trace w) th inputs in
  let evs := flat_map answer_events answers in
  conversation E agent inputs th w = (answers_result answers, after w evs) /\
  map req_messages (turns_of evs) = map MessagesStr (map question answers) /\
  map question answers `prefix_of` inputs /\
  (forall i a e, answers !! i = Some a -> ans_error a = Some e ->
     S i = length answers /\ answers_result answers = Raise e) /\
  (Forall (fun a => ans_error a = None) answers ->
     map question answers = inputs /\ answers_result answers = Ok tt) /\
  (inputs = [] -> evs = []) /\
  (forall (answer : string -> Stream) asked u rest e,
     inputs = asked ++ u :: rest ->
     (forall v tr' h, invoke_stream E agent tr' (MessagesStr v) h = answer v) ->
     Forall (fun v => (answer v).2 = None) asked ->
     (answer u).2 = Some e ->
     (conversation E agent inputs th w).1 = Raise e /\
     map req_messages (turns_of evs) = map MessagesStr (asked ++ [u])).
Proof.
  intros answers evs.
  assert (map req_messages (turns_of evs) = map MessagesStr (map question answers))
    as Hturns.
  { unfold turns_of, evs. rewrite <- (app_nil_r (flat_map _ _)).
    rewrite (split_turns_answers answers [] (List.Forall_nil _)). cbn [snd].
    by rewrite <- !list_fmap_compose. }
  split; [apply conversation_answers|].
  split; [exact Hturns|].
  split; [apply service_answers_questions|].
  split; [intros i a e; apply service_answers_stop|].
  split; [apply service_answers_complete|].
  split; [by intros ->|].
  intros answer asked u rest e -> Hfixed Hasked Hu.
  destruct (service_answers_fixed_fail E agent answer asked u rest e
              Hfixed Hasked Hu (trace w) th) as [Hq Hres].
  rewrite conversation_answers. cbn [fst].
  split; [exact Hres|]. rewrite Hturns. subst answers. by rewrite Hq.
Qed.

Lemma conversation_requests_witness :
  let E := MockByQuestion.env MockByQuestion.fail_on_second in
  let inputs := USER_INPUTS in
  let answers :=
    service_answers E MockByQuestion.agent [] None inputs in
  (conversation E MockByQuestion.agent inputs None (init_world ∅)).1
  = Raise (Exception "APIConnectionError" "reset") /\
  map req_messages (turns_of (flat_map answer_events answers))
  = map MessagesStr
      ([ "What type of files did I upload?" ]
         ++ [ "Can you tell me about the content in the PDF file?" ]).
Proof.
  intros E inputs answers.
  destruct (conversation_requests E MockByQuestion.agent inputs None (init_world ∅))
    as (_ & _ & _ & _ & _ & _ & H).
  apply (H MockByQuestion.fail_on_second
           [ "What type of files did I upload?" ]
           "Can you tell me about the content in the PDF file?"
           [ "What does the text file contain?";
             "Summarize all the uploaded documents." ]);
    [reflexivity | reflexivity | | reflexivity].
  repeat constructor.
Defined.
